(** * DtlsAssociation: the client side of a DTLS association

    A shallow embedding of [association.h] / [association.cpp].  The class
    owns a [QUdpSocket], a [QDtls] engine, a keepalive [QTimer] and the
    [unsigned] counter [ping]; its slots are run one at a time by the event
    loop.  The slots are written below in a small state-and-log monad: the
    state is the object, the log records, in program order, every signal
    the object emits and every call it makes on its members.

    The DTLS engine is a collaborator that lives outside the repository: it
    is an interface ([Class QDtls]) and every statement is proved for all
    of its implementations.  A scripted engine at the end of the
    definitions gives concrete runs. *)

From Stdlib Require Import ZArith String List Bool Lia.
Import ListNotations.

Local Open Scope Z_scope.

(** ** Qt value types *)

Definition QByteArray := list Byte.byte.
Definition qint64 := Z.

(** [QByteArray::resize]: the first [n] bytes are kept; a longer array is
    padded (Qt leaves the new bytes uninitialised, the model zeroes them).
    [readDatagram] never returns more than the buffer holds, so the padding
    is not reached from [readyRead]. *)
Definition resize (b : QByteArray) (n : Z) : QByteArray :=
  firstn (Z.to_nat n) b ++ repeat Byte.x00 (Z.to_nat n - length b).

(** A translated or literal text with its [.arg(...)] substitutions, kept as
    the expression the source writes. *)
Inductive Text :=
| Lit (s : string)
| Tr (sourceText : string)
| Arg (t : Text) (a : string)
| Arg2 (t : Text) (a b : string)
| ArgU (t : Text) (n : Z).

(** The byte array [t.toLatin1()], denoted by the text it encodes. *)
Inductive Latin1 :=
| toLatin1 (t : Text).

(** [QAbstractSocket::SocketState] *)
Inductive SocketState :=
| UnconnectedState
| HostLookupState
| ConnectingState
| ConnectedState
| BoundState
| ListeningState
| ClosingState.

Definition SocketState_eqb (a b : SocketState) : bool :=
  match a, b with
  | UnconnectedState, UnconnectedState
  | HostLookupState, HostLookupState
  | ConnectingState, ConnectingState
  | ConnectedState, ConnectedState
  | BoundState, BoundState
  | ListeningState, ListeningState
  | ClosingState, ClosingState => true
  | _, _ => false
  end.

(** [QDtlsError] *)
Inductive QDtlsError :=
| NoError
| InvalidInputParameter
| InvalidOperation
| UnderlyingSocketError
| RemoteClosedConnectionError
| PeerVerificationError
| TlsInitializationError
| TlsFatalError
| TlsNonFatalError.

Definition is_RemoteClosedConnectionError (e : QDtlsError) : bool :=
  match e with RemoteClosedConnectionError => true | _ => false end.

(** ** The DTLS engine [QDtls], as the class uses it

    Every operation that takes [&socket] may send on it; none changes the
    socket's connection state.  An operation returns its result and the
    engine after the call. *)
Class QDtls (E : Type) := {
  isConnectionEncrypted : E -> bool;
  doHandshake : E -> QByteArray -> bool * E;
  handleTimeout : E -> bool * E;
  decryptDatagram : E -> QByteArray -> QByteArray * E;
  writeDatagramEncrypted : E -> Latin1 -> qint64 * E;
  shutdown : E -> bool * E;
  dtlsError : E -> QDtlsError;
  dtlsErrorString : E -> string
}.

(** ** Signals emitted and member calls made, in program order *)
Inductive Effect :=
| errorMessage (message : Text)
| warningMessage (message : Text)
| infoMessage (message : Text)
| serverResponse (clientInfo : string) (datagram plainText : QByteArray)
| Call_connect_connected
| Call_doHandshake (dgram : QByteArray) (ok : bool)
| Call_handleTimeout (ok : bool)
| Call_decryptDatagram (dgram plainText : QByteArray)
| Call_writeDatagramEncrypted (dgram : Latin1) (written : qint64)
| Call_shutdown
| Call_socket_close
| Call_pingTimer_start
| Call_pingTimer_stop
| Call_setIdentity (identity : Latin1)
| Call_setPreSharedKey (key : QByteArray).

(** ** The members *)

Record QTimer := mkTimer {
  interval : Z;
  isActive : bool
}.

(** The socket as the class sees it: its connection state and the number of
    connections from its [connected()] signal to [udpSocketConnected]
    ([connect] is called without [Qt::UniqueConnection], so every call
    adds one). *)
Record QUdpSocket := mkSocket {
  state : SocketState;
  connected_slots : nat
}.

Definition uint_modulus : Z := 2 ^ 32.

Section Association.

Context {E : Type} `{QDtls E}.

Record DtlsAssociation := mkAssoc {
  name : string;
  socket : QUdpSocket;
  crypto : E;
  pingTimer : QTimer;
  ping : Z
}.

Definition set_socket (s : QUdpSocket) (a : DtlsAssociation) :=
  mkAssoc (name a) s (crypto a) (pingTimer a) (ping a).
Definition set_crypto (e : E) (a : DtlsAssociation) :=
  mkAssoc (name a) (socket a) e (pingTimer a) (ping a).
Definition set_pingTimer (t : QTimer) (a : DtlsAssociation) :=
  mkAssoc (name a) (socket a) (crypto a) t (ping a).
Definition set_ping (n : Z) (a : DtlsAssociation) :=
  mkAssoc (name a) (socket a) (crypto a) (pingTimer a) n.

(** ** The slot monad: the object is the state, the log is written to *)

Definition Slot (A : Type) := DtlsAssociation -> A * DtlsAssociation * list Effect.

Definition ret {A} (x : A) : Slot A := fun a => (x, a, []).

Definition bind {A B} (c : Slot A) (k : A -> Slot B) : Slot B :=
  fun a =>
    let '(x, a1, l1) := c a in
    let '(y, a2, l2) := k x a1 in
    (y, a2, l1 ++ l2).

Definition this : Slot DtlsAssociation := fun a => (a, a, []).

Definition emit (e : Effect) : Slot unit := fun a => (tt, a, [e]).

End Association.

Arguments DtlsAssociation E : clear implicits.
Arguments Slot E A : clear implicits.

Declare Scope slot_scope.
Delimit Scope slot_scope with slot.
Notation "x <- c ;; k" := (bind c (fun x => k))
  (at level 61, c at next level, right associativity) : slot_scope.
Notation "c ;; k" := (bind c (fun _ => k))
  (at level 61, right associativity) : slot_scope.

(** ** The class *)

Section Slots.

Context {E : Type} `{QDtls E}.

Local Open Scope slot_scope.

(** *** Calls on the members *)

Definition socket_state : Slot E SocketState :=
  fun a => (state (socket a), a, []).

(** [connect(&socket, &QAbstractSocket::connected, this, ...)] *)
Definition socket_connect_connected : Slot E unit :=
  fun a =>
    (tt,
     set_socket (mkSocket (state (socket a)) (S (connected_slots (socket a)))) a,
     [Call_connect_connected]).

(** [socket.close()]: the socket goes back to [UnconnectedState]. *)
Definition socket_close : Slot E unit :=
  fun a =>
    (tt,
     set_socket (mkSocket UnconnectedState (connected_slots (socket a))) a,
     [Call_socket_close]).

Definition pingTimer_start : Slot E unit :=
  fun a =>
    (tt, set_pingTimer (mkTimer (interval (pingTimer a)) true) a,
     [Call_pingTimer_start]).

Definition pingTimer_stop : Slot E unit :=
  fun a =>
    (tt, set_pingTimer (mkTimer (interval (pingTimer a)) false) a,
     [Call_pingTimer_stop]).

Definition crypto_isConnectionEncrypted : Slot E bool :=
  fun a => (isConnectionEncrypted (crypto a), a, []).

Definition crypto_dtlsError : Slot E QDtlsError :=
  fun a => (dtlsError (crypto a), a, []).

Definition crypto_dtlsErrorString : Slot E string :=
  fun a => (dtlsErrorString (crypto a), a, []).

Definition crypto_doHandshake (dgram : QByteArray) : Slot E bool :=
  fun a =>
    let '(ok, e) := doHandshake (crypto a) dgram in
    (ok, set_crypto e a, [Call_doHandshake dgram ok]).

Definition crypto_handleTimeout : Slot E bool :=
  fun a =>
    let '(ok, e) := handleTimeout (crypto a) in
    (ok, set_crypto e a, [Call_handleTimeout ok]).

Definition crypto_decryptDatagram (dgram : QByteArray) : Slot E QByteArray :=
  fun a =>
    let '(plainText, e) := decryptDatagram (crypto a) dgram in
    (plainText, set_crypto e a, [Call_decryptDatagram dgram plainText]).

Definition crypto_writeDatagramEncrypted (dgram : Latin1) : Slot E qint64 :=
  fun a =>
    let '(written, e) := writeDatagramEncrypted (crypto a) dgram in
    (written, set_crypto e a, [Call_writeDatagramEncrypted dgram written]).

Definition crypto_shutdown : Slot E bool :=
  fun a =>
    let '(ok, e) := shutdown (crypto a) in
    (ok, set_crypto e a, [Call_shutdown]).

(** [++ping] on an [unsigned] *)
Definition incr_ping : Slot E unit :=
  fun a => (tt, set_ping ((ping a + 1) mod uint_modulus) a, []).

(** *** Constructor and destructor *)

(** [e] is the engine after [setPeer] and [setDtlsConfiguration], [s] the
    state the socket is in when [connectToHost] returns.  No slot is
    connected to [connected()] yet, the timer has its interval only. *)
Definition DtlsAssociation_new (connectionName : string) (e : E) (s : SocketState)
  : DtlsAssociation E :=
  mkAssoc connectionName (mkSocket s 0) e (mkTimer 5000 false) 0.

Definition DtlsAssociation_delete : Slot E unit :=
  enc <- crypto_isConnectionEncrypted;;
  if enc then (_ <- crypto_shutdown;; ret tt) else ret tt.

(** *** Slots *)

Definition msg_connecting (n : string) : Text :=
  Arg (Tr "%1: connecting UDP socket first...") n.
Definition msg_start_failed (n reason : string) : Text :=
  Arg2 (Tr "%1: failed to start a handshake - %2") n reason.
Definition msg_starting (n : string) : Text :=
  Arg (Tr "%1: starting a handshake") n.
Definition msg_resumed (n : string) : Text :=
  Arg (Tr "%1: UDP socket is now in connected state, continue with handshake...") n.
Definition msg_spurious (n : string) : Text :=
  Arg (Tr "%1: spurious read notification?") n.
Definition msg_shutdown_alert (n : string) : Text :=
  Arg (Tr "%1: shutdown alert received") n.
Definition msg_zero_length (n : string) : Text :=
  Arg (Tr "%1: zero-length datagram received?") n.
Definition msg_handshake_error (n reason : string) : Text :=
  Arg2 (Tr "%1: handshake error - %2") n reason.
Definition msg_established (n : string) : Text :=
  Arg (Tr "%1: encrypted connection established!") n.
Definition msg_continuing (n : string) : Text :=
  Arg (Tr "%1: continuing with handshake...") n.
Definition msg_retransmit (n : string) : Text :=
  Arg (Tr "%1: handshake timeout, trying to re-transmit") n.
Definition msg_retransmit_failed (n reason : string) : Text :=
  Arg2 (Tr "%1: failed to re-transmit - %2") n reason.
Definition msg_psk (n : string) : Text :=
  Arg (Tr "%1: providing pre-shared key...") n.
Definition msg_ping_failed (n reason : string) : Text :=
  Arg2 (Tr "%1: failed to send a ping - %2") n reason.

Definition ping_message : Text := Lit "I am %1, please, accept our ping %2".

Definition ping_datagram (n : string) (k : Z) : Latin1 :=
  toLatin1 (ArgU (Arg ping_message n) k).

Definition pingTimeout : Slot E unit :=
  a <- this;;
  written <- crypto_writeDatagramEncrypted (ping_datagram (name a) (ping a));;
  if written <=? 0 then
    err <- crypto_dtlsErrorString;;
    emit (errorMessage (msg_ping_failed (name a) err));;
    pingTimer_stop
  else
    incr_ping.

Definition startHandshake : Slot E unit :=
  a <- this;;
  st <- socket_state;;
  if negb (SocketState_eqb st ConnectedState) then
    emit (infoMessage (msg_connecting (name a)));;
    socket_connect_connected
  else
    ok <- crypto_doHandshake [];;
    if negb ok then
      err <- crypto_dtlsErrorString;;
      emit (errorMessage (msg_start_failed (name a) err))
    else
      emit (infoMessage (msg_starting (name a))).

Definition udpSocketConnected : Slot E unit :=
  a <- this;;
  emit (infoMessage (msg_resumed (name a)));;
  startHandshake.

(** [bytesRead] is what [socket.readDatagram] returned and [data] the
    buffer it filled. *)
Definition readyRead (bytesRead : qint64) (data : QByteArray) : Slot E unit :=
  a <- this;;
  if bytesRead <=? 0 then
    emit (warningMessage (msg_spurious (name a)))
  else
    let dgram := resize data bytesRead in
    encrypted <- crypto_isConnectionEncrypted;;
    if encrypted then
      plainText <- crypto_decryptDatagram dgram;;
      if negb (Nat.eqb (length plainText) 0) then
        emit (serverResponse (name a) dgram plainText)
      else
        err <- crypto_dtlsError;;
        if is_RemoteClosedConnectionError err then
          emit (errorMessage (msg_shutdown_alert (name a)));;
          socket_close;;
          pingTimer_stop
        else
          emit (warningMessage (msg_zero_length (name a)))
    else
      ok <- crypto_doHandshake dgram;;
      if negb ok then
        err <- crypto_dtlsErrorString;;
        emit (errorMessage (msg_handshake_error (name a) err))
      else
        encrypted' <- crypto_isConnectionEncrypted;;
        if encrypted' then
          emit (infoMessage (msg_established (name a)));;
          pingTimer_start;;
          pingTimeout
        else
          emit (infoMessage (msg_continuing (name a))).

Definition handshakeTimeout : Slot E unit :=
  a <- this;;
  emit (warningMessage (msg_retransmit (name a)));;
  ok <- crypto_handleTimeout;;
  if negb ok then
    err <- crypto_dtlsErrorString;;
    emit (errorMessage (msg_retransmit_failed (name a) err))
  else
    ret tt.

Definition preSharedKey : QByteArray :=
  [Byte.x1a; Byte.x2b; Byte.x3c; Byte.x4d; Byte.x5e; Byte.x6f].

Definition pskRequired : Slot E unit :=
  a <- this;;
  emit (infoMessage (msg_psk (name a)));;
  emit (Call_setIdentity (toLatin1 (Lit (name a))));;
  emit (Call_setPreSharedKey preSharedKey).

(** *** The event loop

    What the owner and the members can make happen between two returns to
    the event loop.  [connected()] is emitted once the socket has reached
    [ConnectedState] and runs the slot once per connection that existed when
    the emission began; [readyRead()] comes from a connected socket only;
    the timer fires only while it is active.  The engine emits
    [pskRequired()] while it runs [doHandshake]; here the request is an
    event of its own, so the slot's effects stand beside the handshake step
    in the log, not inside it. *)
Inductive Event :=
| owner_startHandshake
| socket_connected
| socket_readyRead (bytesRead : qint64) (data : QByteArray)
| crypto_handshakeTimeout
| crypto_pskRequired
| pingTimer_timeout.

Definition enabled (a : DtlsAssociation E) (ev : Event) : bool :=
  match ev with
  | socket_connected =>
      match state (socket a) with
      | HostLookupState | ConnectingState => true
      | _ => false
      end
  | socket_readyRead _ _ => SocketState_eqb (state (socket a)) ConnectedState
  | pingTimer_timeout => isActive (pingTimer a)
  | owner_startHandshake | crypto_handshakeTimeout | crypto_pskRequired => true
  end.

Fixpoint invoke (n : nat) (slot : Slot E unit) : Slot E unit :=
  match n with
  | O => ret tt
  | S n' => slot;; invoke n' slot
  end.

Definition socket_enter_connected : Slot E unit :=
  fun a => (tt, set_socket (mkSocket ConnectedState (connected_slots (socket a))) a, []).

Definition dispatch (ev : Event) : Slot E unit :=
  match ev with
  | owner_startHandshake => startHandshake
  | socket_connected =>
      a <- this;;
      socket_enter_connected;;
      invoke (connected_slots (socket a)) udpSocketConnected
  | socket_readyRead bytesRead data => readyRead bytesRead data
  | crypto_handshakeTimeout => handshakeTimeout
  | crypto_pskRequired => pskRequired
  | pingTimer_timeout => pingTimeout
  end.

(** The object and the log after one event. *)
Definition step (ev : Event) (a : DtlsAssociation E) : DtlsAssociation E * list Effect :=
  let '(_, a', l) := dispatch ev a in (a', l).

(** A run of the event loop; [None] when an event is not enabled. *)
Fixpoint exec (evs : list Event) (a : DtlsAssociation E)
  : option (DtlsAssociation E * list Effect) :=
  match evs with
  | [] => Some (a, [])
  | ev :: evs' =>
      if enabled a ev then
        let '(a1, l1) := step ev a in
        match exec evs' a1 with
        | Some (a2, l2) => Some (a2, l1 ++ l2)
        | None => None
        end
      else None
  end.

End Slots.

(** ** A scripted engine

    Every call that changes the engine takes the next answer of the script
    and moves to the state the answer names; with the script used up every
    call succeeds, a write reports one byte and a decryption returns the
    datagram itself. *)
Module Scripted.

Record Answer := mkAnswer {
  ans_ok : bool;
  ans_written : qint64;
  ans_plainText : QByteArray;
  ans_error : QDtlsError;
  ans_encrypted : bool
}.

Record Engine := mkEngine {
  encrypted : bool;
  error : QDtlsError;
  script : list Answer
}.

Definition next (dgram : QByteArray) (e : Engine) : Answer * Engine :=
  match script e with
  | [] => (mkAnswer true 1 dgram (error e) (encrypted e), e)
  | ans :: rest => (ans, mkEngine (ans_encrypted ans) (ans_error ans) rest)
  end.

Definition errorString (err : QDtlsError) : string :=
  match err with
  | NoError => ""
  | RemoteClosedConnectionError => "The DTLS connection has been shutdown"
  | _ => "engine failure"
  end.

#[global] Instance engine : QDtls Engine := {|
  isConnectionEncrypted e := encrypted e;
  doHandshake e dgram := let '(ans, e') := next dgram e in (ans_ok ans, e');
  handleTimeout e := let '(ans, e') := next [] e in (ans_ok ans, e');
  decryptDatagram e dgram := let '(ans, e') := next dgram e in (ans_plainText ans, e');
  writeDatagramEncrypted e _ := let '(ans, e') := next [] e in (ans_written ans, e');
  shutdown e := let '(ans, e') := next [] e in (ans_ok ans, e');
  dtlsError e := error e;
  dtlsErrorString e := errorString (error e)
|}.

(** Answers of a handshake step: in progress, completed, failed. *)
Definition progress : Answer := mkAnswer true 0 [] NoError false.
Definition completes : Answer := mkAnswer true 0 [] NoError true.
Definition fails : Answer := mkAnswer false 0 [] TlsFatalError false.
(** Answers of an encrypted write. *)
Definition sent (n : qint64) : Answer := mkAnswer true n [] NoError true.
Definition unsent : Answer := mkAnswer false (-1) [] TlsFatalError true.
(** Answers of a decryption. *)
Definition plain (p : QByteArray) : Answer := mkAnswer true 0 p NoError true.
Definition remote_closed : Answer :=
  mkAnswer false 0 [] RemoteClosedConnectionError false.

Definition fresh (s : list Answer) : Engine := mkEngine false NoError s.

End Scripted.

(** ** Reading a log *)

(** The encrypted datagrams handed to the engine, with what each write
    returned. *)
Definition sent (log : list Effect) : list (Latin1 * qint64) :=
  flat_map (fun eff =>
              match eff with
              | Call_writeDatagramEncrypted d w => [(d, w)]
              | _ => []
              end) log.

(** The signals of a log, without the member calls. *)
Definition is_signal (eff : Effect) : bool :=
  match eff with
  | errorMessage _ | warningMessage _ | infoMessage _ | serverResponse _ _ _ => true
  | _ => false
  end.

Definition signals (log : list Effect) : list Effect := filter is_signal log.

(** Effects that do not move the association forward: everything but a
    handshake step, a decryption, a response, a keepalive write and the
    start of the keepalive timer. *)
Definition inert (eff : Effect) : bool :=
  match eff with
  | Call_doHandshake _ _ | Call_decryptDatagram _ _ | serverResponse _ _ _
  | Call_writeDatagramEncrypted _ _ | Call_pingTimer_start => false
  | _ => true
  end.

(** Effects that do not carry an inbound datagram. *)
Definition carries_no_datagram (eff : Effect) : bool :=
  match eff with
  | Call_doHandshake _ _ | Call_decryptDatagram _ _ | serverResponse _ _ _ => false
  | _ => true
  end.

(** A handshake-start attempt: [doHandshake] without a datagram. *)
Definition is_start_attempt (eff : Effect) : bool :=
  match eff with
  | Call_doHandshake [] _ => true
  | _ => false
  end.

(** The message [udpSocketConnected] opens with. *)
Definition is_resume (eff : Effect) : bool :=
  match eff with
  | infoMessage (Arg (Tr t) _) =>
      String.eqb t "%1: UDP socket is now in connected state, continue with handshake..."
  | _ => false
  end.

Definition count (p : Effect -> bool) (log : list Effect) : nat :=
  length (filter p log).

(** What [udpSocketConnected] can log on a connected socket. *)
Inductive startup_effect (n : string) : Effect -> Prop :=
| startup_resumed : startup_effect n (infoMessage (msg_resumed n))
| startup_call ok : startup_effect n (Call_doHandshake [] ok)
| startup_starting : startup_effect n (infoMessage (msg_starting n))
| startup_failed reason : startup_effect n (errorMessage (msg_start_failed n reason)).

Section Runs.

Context {E : Type} `{QDtls E}.

(** The steps of a run: the object before the event, the event and what
    the event logged. *)
Fixpoint trace (evs : list Event) (a : DtlsAssociation E)
  : list (DtlsAssociation E * Event * list Effect) :=
  match evs with
  | [] => []
  | ev :: evs' =>
      if enabled a ev then
        let '(a1, l1) := step ev a in (a, ev, l1) :: trace evs' a1
      else []
  end.

(** What the design calls a terminal state, read on the members: whatever
    happens next, the keepalive timer stays off and no keepalive is
    written. *)
Definition terminal (a : DtlsAssociation E) : Prop :=
  forall evs a' log,
    exec evs a = Some (a', log) ->
    isActive (pingTimer a') = false /\ sent log = [].

End Runs.

(** ** Concrete objects and runs *)
Module Examples.

Import Scripted.

(** An association whose handshake has completed and whose engine accepts
    every write, with the counter at [k]. *)
Definition established_client (k : Z) : DtlsAssociation Engine :=
  mkAssoc "client" (mkSocket ConnectedState 0) (mkEngine true NoError [])
          (mkTimer 5000 true) k.

(** The same with the counter at the largest [unsigned]. *)
Definition at_limit : DtlsAssociation Engine := established_client 4294967295.

Definition hello : QByteArray := [Byte.x16; Byte.xfe; Byte.xfd].

(** A new association on a connected socket; the engine follows [s]. *)
Definition client (s : list Answer) : DtlsAssociation Engine :=
  DtlsAssociation_new "client" (fresh s) ConnectedState.

(** A handshake that completes on the first datagram, then two timer
    ticks. *)
Definition three_ticks : list Event :=
  [socket_readyRead 3 hello; pingTimer_timeout; pingTimer_timeout].

Definition three_ticks_log : list Effect :=
  [Call_doHandshake hello true;
   infoMessage (msg_established "client");
   Call_pingTimer_start;
   Call_writeDatagramEncrypted (ping_datagram "client" 0) 1;
   Call_writeDatagramEncrypted (ping_datagram "client" 1) 1;
   Call_writeDatagramEncrypted (ping_datagram "client" 2) 1].




(** A run in which the engine fails to retransmit and the next datagram
    completes the handshake all the same. *)
Definition failed_retransmit_script : list Answer := [progress; fails; completes].

Definition after_failed_retransmit : DtlsAssociation Engine :=
  mkAssoc "client" (mkSocket ConnectedState 0)
          (mkEngine false TlsFatalError [completes]) (mkTimer 5000 false) 0.

(** An established association about to read the peer's shutdown alert. *)
Definition closing : DtlsAssociation Engine :=
  mkAssoc "client" (mkSocket ConnectedState 0)
          (mkEngine true NoError [remote_closed]) (mkTimer 5000 true) 2.

(** A new association whose socket is still connecting. *)
Definition connecting_client (s : list Answer) : DtlsAssociation Engine :=
  DtlsAssociation_new "client" (fresh s) ConnectingState.

End Examples.

(** ** Further readings of a log *)

(** An engine call that reported failure: a handshake step or a timeout
    handling that returned [false], a write that returned zero or less. *)
Definition failed_call (eff : Effect) : bool :=
  match eff with
  | Call_doHandshake _ ok | Call_handleTimeout ok => negb ok
  | Call_writeDatagramEncrypted _ written => written <=? 0
  | _ => false
  end.

Definition empty_decryption (eff : Effect) : bool :=
  match eff with
  | Call_decryptDatagram _ [] => true
  | _ => false
  end.

Definition is_errorMessage (eff : Effect) : bool :=
  match eff with errorMessage _ => true | _ => false end.

Definition is_shutdown_alert (eff : Effect) : bool :=
  match eff with
  | errorMessage (Arg (Tr t) _) => String.eqb t "%1: shutdown alert received"
  | _ => false
  end.

Definition is_ping_failed (eff : Effect) : bool :=
  match eff with
  | errorMessage (Arg2 (Tr t) _ _) => String.eqb t "%1: failed to send a ping - %2"
  | _ => false
  end.

Definition is_established (eff : Effect) : bool :=
  match eff with
  | infoMessage (Arg (Tr t) _) => String.eqb t "%1: encrypted connection established!"
  | _ => false
  end.

Definition is_write (eff : Effect) : bool :=
  match eff with Call_writeDatagramEncrypted _ _ => true | _ => false end.

Definition is_socket_close (eff : Effect) : bool :=
  match eff with Call_socket_close => true | _ => false end.

Definition is_timer_start (eff : Effect) : bool :=
  match eff with Call_pingTimer_start => true | _ => false end.

Definition is_timer_stop (eff : Effect) : bool :=
  match eff with Call_pingTimer_stop => true | _ => false end.

Definition is_connect (eff : Effect) : bool :=
  match eff with Call_connect_connected => true | _ => false end.

Definition is_doHandshake (eff : Effect) : bool :=
  match eff with Call_doHandshake _ _ => true | _ => false end.

(** The inbound datagram an effect carries. *)
Definition datagram_of (eff : Effect) : option QByteArray :=
  match eff with
  | Call_doHandshake d _ | Call_decryptDatagram d _ | serverResponse _ d _ => Some d
  | _ => None
  end.

Definition is_serverResponse (eff : Effect) : bool :=
  match eff with serverResponse _ _ _ => true | _ => false end.

Definition plain_decryption (eff : Effect) : bool :=
  match eff with
  | Call_decryptDatagram _ (_ :: _) => true
  | _ => false
  end.

Definition is_socket_connected (ev : Event) : bool :=
  match ev with socket_connected => true | _ => false end.

Definition is_setIdentity (eff : Effect) : bool :=
  match eff with Call_setIdentity _ => true | _ => false end.

Definition is_setPreSharedKey (eff : Effect) : bool :=
  match eff with Call_setPreSharedKey _ => true | _ => false end.

Definition is_shutdown (eff : Effect) : bool :=
  match eff with Call_shutdown => true | _ => false end.

Definition is_tick (ev : Event) : bool :=
  match ev with pingTimer_timeout => true | _ => false end.

Definition is_owner_start (ev : Event) : bool :=
  match ev with owner_startHandshake => true | _ => false end.

Definition is_key_request (ev : Event) : bool :=
  match ev with crypto_pskRequired => true | _ => false end.

(** The writes of a list that succeeded. *)
Definition successes (ws : list (Latin1 * qint64)) : nat :=
  length (filter (fun dw => 0 <? snd dw) ws).

(** What two neighbours of a log owe each other: a failed call is answered
    by an error message; the shutdown alert has an empty decryption before
    it and every other error message a failed call; the socket is closed
    after the shutdown alert
    only and the timer is stopped next; the timer is stopped after the
    failed-ping message or the closing of the socket only; the timer is
    started after the success message only and a keepalive is written
    next. *)
Definition neighbours (x y : Effect) : bool :=
  (if failed_call x then is_errorMessage y else true)
  && (if is_socket_close x then is_timer_stop y else true)
  && (if is_timer_start x then is_write y else true)
  && (if is_errorMessage y
      then if is_shutdown_alert y then empty_decryption x else failed_call x
      else true)
  && (if is_socket_close y then is_shutdown_alert x else true)
  && (if is_timer_stop y then is_ping_failed x || is_socket_close x else true)
  && (if is_timer_start y then is_established x else true).

(** An effect that owes nothing to the one before it, respectively to the
    one after it. *)
Definition opens (y : Effect) : bool :=
  negb (is_errorMessage y) && negb (is_socket_close y) && negb (is_timer_stop y)
  && negb (is_timer_start y).

Definition closes (x : Effect) : bool :=
  negb (failed_call x) && negb (is_socket_close x) && negb (is_timer_start x).

Fixpoint adjacent (log : list Effect) : bool :=
  match log with
  | [] => true
  | x :: rest =>
      match rest with
      | [] => true
      | y :: _ => neighbours x y
      end && adjacent rest
  end.

Definition first_opens (log : list Effect) : bool :=
  match log with
  | [] => true
  | y :: _ => opens y
  end.

Fixpoint last_closes (log : list Effect) : bool :=
  match log with
  | [] => true
  | x :: rest =>
      match rest with
      | [] => closes x
      | _ :: _ => last_closes rest
      end
  end.

(** A log that keeps the order above and is complete at both ends. *)
Definition orderly (log : list Effect) : bool :=
  adjacent log && first_opens log && last_closes log.

(** The keepalive timer runs on a connected socket only. *)
Definition timer_needs_socket {E : Type} (a : DtlsAssociation E) : Prop :=
  isActive (pingTimer a) = true -> state (socket a) = ConnectedState.

(** ** A longer scenario *)
Module Scenario.

Import Scripted.

(** The owner starts too early, the socket connects, a retransmission
    fails, the key is asked for, the handshake completes and the first
    keepalive is written, the next one fails, a datagram is answered, an
    empty one is ignored, the peer closes and the owner starts again. *)
Definition script : list Answer :=
  [progress; fails; completes; sent 37; unsent; plain Examples.hello;
   mkAnswer true 0 [] NoError true; remote_closed].

Definition start : DtlsAssociation Engine := Examples.connecting_client script.

Definition events : list Event :=
  [owner_startHandshake; socket_connected; crypto_handshakeTimeout;
   crypto_pskRequired; socket_readyRead 3 Examples.hello; pingTimer_timeout;
   socket_readyRead 3 Examples.hello;
   socket_readyRead 3 Examples.hello; socket_readyRead 3 Examples.hello;
   owner_startHandshake].

Definition finish : DtlsAssociation Engine :=
  mkAssoc "client" (mkSocket UnconnectedState 2)
          (mkEngine false RemoteClosedConnectionError []) (mkTimer 5000 false) 1.

Definition log : list Effect :=
  [infoMessage (msg_connecting "client"); Call_connect_connected;
   infoMessage (msg_resumed "client"); Call_doHandshake [] true;
   infoMessage (msg_starting "client");
   warningMessage (msg_retransmit "client"); Call_handleTimeout false;
   errorMessage (msg_retransmit_failed "client" "engine failure");
   infoMessage (msg_psk "client"); Call_setIdentity (toLatin1 (Lit "client"));
   Call_setPreSharedKey preSharedKey;
   Call_doHandshake Examples.hello true; infoMessage (msg_established "client");
   Call_pingTimer_start;
   Call_writeDatagramEncrypted (ping_datagram "client" 0) 37;
   Call_writeDatagramEncrypted (ping_datagram "client" 1) (-1);
   errorMessage (msg_ping_failed "client" "engine failure"); Call_pingTimer_stop;
   Call_decryptDatagram Examples.hello Examples.hello;
   serverResponse "client" Examples.hello Examples.hello;
   Call_decryptDatagram Examples.hello [];
   warningMessage (msg_zero_length "client");
   Call_decryptDatagram Examples.hello [];
   errorMessage (msg_shutdown_alert "client"); Call_socket_close;
   Call_pingTimer_stop;
   infoMessage (msg_connecting "client"); Call_connect_connected].



(** The owner calls [startHandshake] twice, and the engine asks for the
    key, before the socket has connected. *)
Definition waiting_events : list Event :=
  [owner_startHandshake; crypto_pskRequired; owner_startHandshake].

Definition waiting_finish : DtlsAssociation Engine :=
  mkAssoc "client" (mkSocket ConnectingState 2) (fresh []) (mkTimer 5000 false) 0.

Definition waiting_log : list Effect :=
  [infoMessage (msg_connecting "client"); Call_connect_connected;
   infoMessage (msg_psk "client"); Call_setIdentity (toLatin1 (Lit "client"));
   Call_setPreSharedKey preSharedKey;
   infoMessage (msg_connecting "client"); Call_connect_connected].

End Scenario.

(** * Properties *)

Lemma SocketState_eqb_eq a b : SocketState_eqb a b = true <-> a = b.
Proof. destruct a, b; cbn; split; intro H; congruence. Qed.

(** The datagram [readyRead] works on is the part of the buffer that
    [readDatagram] filled. *)
Lemma resize_within (b : QByteArray) (n : Z) :
  0 <= n <= Z.of_nat (length b) -> resize b n = firstn (Z.to_nat n) b.
Proof.
  intros Hn. unfold resize.
  replace (Z.to_nat n - length b)%nat with 0%nat by lia.
  apply app_nil_r.
Qed.

Ltac slot_unfold :=
  unfold step, dispatch, readyRead, pingTimeout, startHandshake, udpSocketConnected,
    handshakeTimeout, pskRequired, DtlsAssociation_delete, bind, ret, this, emit,
    socket_state, socket_connect_connected, socket_close, pingTimer_start,
    pingTimer_stop, crypto_isConnectionEncrypted, crypto_dtlsError,
    crypto_dtlsErrorString, crypto_doHandshake, crypto_handleTimeout,
    crypto_decryptDatagram, crypto_writeDatagramEncrypted, crypto_shutdown,
    incr_ping, socket_enter_connected, set_socket, set_crypto, set_pingTimer,
    set_ping in *;
  cbn [name socket crypto pingTimer ping state connected_slots interval isActive
       fst snd app] in *.

Ltac not_in_log :=
  let Hin := fresh "Hin" in
  cbn [In app]; intros Hin;
  repeat (destruct Hin as [Hin|Hin]; [discriminate Hin|]); exact Hin.

Section Local.

Context {E : Type} `{QDtls E}.

(** C8.  A read notification whose [readDatagram] returns zero or a negative
    length logs exactly one warning, the spurious-read one, and nothing
    else: no member is touched, the engine is not called, no other signal
    is emitted. *)
Theorem spurious_read_only_warns (a : DtlsAssociation E) (bytesRead : qint64)
    (data : QByteArray) :
  bytesRead <= 0 ->
  step (socket_readyRead bytesRead data) a
  = (a, [warningMessage (msg_spurious (name a))]).
Proof.
  intros Hle. slot_unfold.
  apply Z.leb_le in Hle. rewrite Hle. reflexivity.
Qed.

(** C7.  On an encrypted engine a datagram that decrypts to a non-empty
    plaintext logs one decryption and one [serverResponse] carrying the
    datagram as read and the plaintext; nothing else is emitted and no
    member but the engine, which did the decryption, changes. *)
Theorem response_for_plaintext (a : DtlsAssociation E) (bytesRead : qint64)
    (data plainText : QByteArray) (e1 : E) :
  0 < bytesRead ->
  isConnectionEncrypted (crypto a) = true ->
  decryptDatagram (crypto a) (resize data bytesRead) = (plainText, e1) ->
  plainText <> [] ->
  step (socket_readyRead bytesRead data) a
  = (mkAssoc (name a) (socket a) e1 (pingTimer a) (ping a),
     [Call_decryptDatagram (resize data bytesRead) plainText;
      serverResponse (name a) (resize data bytesRead) plainText])
  /\ signals (snd (step (socket_readyRead bytesRead data) a))
     = [serverResponse (name a) (resize data bytesRead) plainText].
Proof.
  intros Hpos Henc Hdec Hne.
  assert (Hstep : step (socket_readyRead bytesRead data) a
    = (mkAssoc (name a) (socket a) e1 (pingTimer a) (ping a),
       [Call_decryptDatagram (resize data bytesRead) plainText;
        serverResponse (name a) (resize data bytesRead) plainText])).
  { slot_unfold.
    destruct (bytesRead <=? 0) eqn:Hle; [apply Z.leb_le in Hle; lia|].
    rewrite Henc, Hdec.
    destruct plainText as [|b p]; [congruence|]. reflexivity. }
  split; [exact Hstep|]. rewrite Hstep. reflexivity.
Qed.

(** C6.  The destructor calls the engine's [shutdown] exactly when the
    engine is encrypted; otherwise it logs nothing and leaves every member
    as it was. *)
Theorem delete_shuts_down_iff_encrypted (a : DtlsAssociation E) :
  DtlsAssociation_delete a
  = if isConnectionEncrypted (crypto a)
    then (tt, mkAssoc (name a) (socket a) (snd (shutdown (crypto a)))
                      (pingTimer a) (ping a),
          [Call_shutdown])
    else (tt, a, []).
Proof.
  slot_unfold.
  destruct (isConnectionEncrypted (crypto a)); [|reflexivity].
  destruct (shutdown (crypto a)) as [ok e1]. reflexivity.
Qed.

(** The keepalive tick in closed form. *)
Lemma pingTimeout_eq (a : DtlsAssociation E) :
  pingTimeout a
  = let '(written, e1) :=
      writeDatagramEncrypted (crypto a) (ping_datagram (name a) (ping a)) in
    if written <=? 0 then
      (tt,
       mkAssoc (name a) (socket a) e1 (mkTimer (interval (pingTimer a)) false) (ping a),
       [Call_writeDatagramEncrypted (ping_datagram (name a) (ping a)) written;
        errorMessage (msg_ping_failed (name a) (dtlsErrorString e1));
        Call_pingTimer_stop])
    else
      (tt,
       mkAssoc (name a) (socket a) e1 (pingTimer a) ((ping a + 1) mod uint_modulus),
       [Call_writeDatagramEncrypted (ping_datagram (name a) (ping a)) written]).
Proof.
  slot_unfold.
  destruct (writeDatagramEncrypted (crypto a) (ping_datagram (name a) (ping a)))
    as [written e1].
  destruct (written <=? 0); reflexivity.
Qed.

(** The other slots in closed form. *)
Lemma readyRead_eq (a : DtlsAssociation E) (bytesRead : qint64) (data : QByteArray) :
  readyRead bytesRead data a
  = if bytesRead <=? 0 then (tt, a, [warningMessage (msg_spurious (name a))])
    else
      let dgram := resize data bytesRead in
      if isConnectionEncrypted (crypto a) then
        let '(plainText, e1) := decryptDatagram (crypto a) dgram in
        if negb (Nat.eqb (length plainText) 0) then
          (tt, mkAssoc (name a) (socket a) e1 (pingTimer a) (ping a),
           [Call_decryptDatagram dgram plainText;
            serverResponse (name a) dgram plainText])
        else if is_RemoteClosedConnectionError (dtlsError e1) then
          (tt,
           mkAssoc (name a) (mkSocket UnconnectedState (connected_slots (socket a)))
                   e1 (mkTimer (interval (pingTimer a)) false) (ping a),
           [Call_decryptDatagram dgram plainText;
            errorMessage (msg_shutdown_alert (name a));
            Call_socket_close; Call_pingTimer_stop])
        else
          (tt, mkAssoc (name a) (socket a) e1 (pingTimer a) (ping a),
           [Call_decryptDatagram dgram plainText;
            warningMessage (msg_zero_length (name a))])
      else
        let '(ok, e1) := doHandshake (crypto a) dgram in
        if negb ok then
          (tt, mkAssoc (name a) (socket a) e1 (pingTimer a) (ping a),
           [Call_doHandshake dgram ok;
            errorMessage (msg_handshake_error (name a) (dtlsErrorString e1))])
        else if isConnectionEncrypted e1 then
          let '(_, a2, l2) :=
            pingTimeout (mkAssoc (name a) (socket a) e1
                                 (mkTimer (interval (pingTimer a)) true) (ping a)) in
          (tt, a2,
           [Call_doHandshake dgram ok; infoMessage (msg_established (name a));
            Call_pingTimer_start] ++ l2)
        else
          (tt, mkAssoc (name a) (socket a) e1 (pingTimer a) (ping a),
           [Call_doHandshake dgram ok; infoMessage (msg_continuing (name a))]).
Proof.
  unfold readyRead, bind, this, emit, ret, crypto_isConnectionEncrypted,
    crypto_decryptDatagram, crypto_dtlsError, crypto_doHandshake,
    crypto_dtlsErrorString, socket_close, pingTimer_start, pingTimer_stop,
    set_socket, set_crypto, set_pingTimer.
  cbn [name socket crypto pingTimer ping state connected_slots interval isActive].
  destruct (bytesRead <=? 0); [reflexivity|].
  destruct (isConnectionEncrypted (crypto a)).
  - destruct (decryptDatagram (crypto a) (resize data bytesRead)) as [plainText e1].
    destruct (negb (Nat.eqb (length plainText) 0)); [reflexivity|].
    cbn [crypto]. destruct (is_RemoteClosedConnectionError (dtlsError e1)); reflexivity.
  - destruct (doHandshake (crypto a) (resize data bytesRead)) as [ok e1].
    destruct ok; cbn [negb crypto]; [|reflexivity].
    destruct (isConnectionEncrypted e1); [|reflexivity].
    cbn [name socket crypto pingTimer ping interval].
    destruct (pingTimeout _) as [[[] a2] l2]. reflexivity.
Qed.

Lemma startHandshake_eq (a : DtlsAssociation E) :
  startHandshake a
  = if negb (SocketState_eqb (state (socket a)) ConnectedState) then
      (tt,
       mkAssoc (name a) (mkSocket (state (socket a)) (S (connected_slots (socket a))))
               (crypto a) (pingTimer a) (ping a),
       [infoMessage (msg_connecting (name a)); Call_connect_connected])
    else
      let '(ok, e1) := doHandshake (crypto a) [] in
      (tt, mkAssoc (name a) (socket a) e1 (pingTimer a) (ping a),
       [Call_doHandshake [] ok;
        if ok then infoMessage (msg_starting (name a))
        else errorMessage (msg_start_failed (name a) (dtlsErrorString e1))]).
Proof.
  slot_unfold.
  destruct (negb (SocketState_eqb (state (socket a)) ConnectedState)); [reflexivity|].
  destruct (doHandshake (crypto a) []) as [ok e1].
  destruct ok; reflexivity.
Qed.

Lemma handshakeTimeout_eq (a : DtlsAssociation E) :
  handshakeTimeout a
  = let '(ok, e1) := handleTimeout (crypto a) in
    (tt, mkAssoc (name a) (socket a) e1 (pingTimer a) (ping a),
     [warningMessage (msg_retransmit (name a)); Call_handleTimeout ok]
     ++ (if ok then []
         else [errorMessage (msg_retransmit_failed (name a) (dtlsErrorString e1))])).
Proof.
  slot_unfold.
  destruct (handleTimeout (crypto a)) as [ok e1].
  destruct ok; reflexivity.
Qed.

Lemma pskRequired_eq (a : DtlsAssociation E) :
  pskRequired a
  = (tt, a,
     [infoMessage (msg_psk (name a)); Call_setIdentity (toLatin1 (Lit (name a)));
      Call_setPreSharedKey preSharedKey]).
Proof. reflexivity. Qed.

(** *** The resume slot, run once per connection *)

Lemma udpSocketConnected_eq (a : DtlsAssociation E) :
  state (socket a) = ConnectedState ->
  udpSocketConnected a
  = let '(ok, e1) := doHandshake (crypto a) [] in
    (tt, mkAssoc (name a) (socket a) e1 (pingTimer a) (ping a),
     [infoMessage (msg_resumed (name a)); Call_doHandshake [] ok;
      if ok then infoMessage (msg_starting (name a))
      else errorMessage (msg_start_failed (name a) (dtlsErrorString e1))]).
Proof.
  intros Hst. unfold udpSocketConnected, bind, this, emit.
  rewrite startHandshake_eq, Hst. cbn [SocketState_eqb negb].
  destruct (doHandshake (crypto a) []) as [ok e1]. reflexivity.
Qed.

Lemma invoke_udpSocketConnected (n : nat) :
  forall a : DtlsAssociation E,
    state (socket a) = ConnectedState ->
    exists e1 l,
      invoke n udpSocketConnected a
      = (tt, mkAssoc (name a) (socket a) e1 (pingTimer a) (ping a), l)
      /\ Forall (startup_effect (name a)) l
      /\ count is_resume l = n
      /\ count is_start_attempt l = n.
Proof.
  induction n as [|n IH]; intros a Hst.
  - exists (crypto a), []. destruct a; cbn. repeat split; constructor.
  - cbn [invoke]. unfold bind at 1.
    rewrite (udpSocketConnected_eq a Hst).
    destruct (doHandshake (crypto a) []) as [ok e1].
    destruct (IH (mkAssoc (name a) (socket a) e1 (pingTimer a) (ping a)) Hst)
      as (e2 & l & Hinv & Hall & Hres & Hatt).
    rewrite Hinv. cbn [name socket pingTimer ping] in *.
    exists e2. eexists. split; [reflexivity|].
    unfold count in *. split; [|split].
    + repeat constructor; [|exact Hall]. destruct ok; constructor.
    + destruct ok; cbn; rewrite Hres; reflexivity.
    + destruct ok; cbn; rewrite Hatt; reflexivity.
Qed.

Lemma startup_sent (n : string) (l : list Effect) :
  Forall (startup_effect n) l -> sent l = [].
Proof.
  induction 1 as [|eff l Heff _ IH]; [reflexivity|].
  destruct Heff; cbn; exact IH.
Qed.

Lemma startup_not_established (n : string) (l : list Effect) :
  Forall (startup_effect n) l -> ~ In (infoMessage (msg_established n)) l.
Proof.
  intros Hall Hin. rewrite Forall_forall in Hall.
  specialize (Hall _ Hin). inversion Hall.
Qed.

(** *** One event

    An enabled event either writes no keepalive and leaves [ping] alone, or
    writes the one keepalive numbered [ping]; the latter happens on a timer
    tick and on the handshake completion, nowhere else. *)
Lemma step_cases (ev : Event) (a a1 : DtlsAssociation E) (l1 : list Effect) :
  enabled a ev = true ->
  step ev a = (a1, l1) ->
  name a1 = name a
  /\ ((sent l1 = []
       /\ ping a1 = ping a
       /\ ~ In (infoMessage (msg_established (name a))) l1
       /\ ev <> pingTimer_timeout
       /\ (isActive (pingTimer a) = false -> isActive (pingTimer a1) = false))
      \/ (exists w,
            sent l1 = [(ping_datagram (name a) (ping a), w)]
            /\ ping a1 = (if w <=? 0 then ping a else (ping a + 1) mod uint_modulus)
            /\ (ev = pingTimer_timeout /\ isActive (pingTimer a) = true
                \/ In (infoMessage (msg_established (name a))) l1))).
Proof.
  intros Hen Hstep. unfold step in Hstep.
  destruct ev as [| |bytesRead data| | |]; cbn [dispatch] in Hstep.
  - rewrite startHandshake_eq in Hstep.
    destruct (negb (SocketState_eqb (state (socket a)) ConnectedState)).
    + inversion Hstep; subst; clear Hstep. cbn [name ping pingTimer].
      split; [reflexivity|]. left. repeat split; auto; try discriminate. not_in_log.
    + destruct (doHandshake (crypto a) []) as [[] e1];
        inversion Hstep; subst; clear Hstep; cbn [name ping pingTimer];
        (split; [reflexivity|]); left; repeat split; auto; try discriminate;
        not_in_log.
  - unfold bind, this, socket_enter_connected, set_socket in Hstep.
    cbn [name socket crypto pingTimer ping connected_slots] in Hstep.
    match type of Hstep with context [invoke ?n ?s ?b] =>
      destruct (invoke_udpSocketConnected n b eq_refl) as (e1 & l & Hinv & Hall & _)
    end.
    rewrite Hinv in Hstep. cbn [name socket pingTimer ping app] in *.
    inversion Hstep; subst; clear Hstep. cbn [name ping pingTimer].
    split; [reflexivity|]. left. repeat split; auto; try discriminate.
    + eapply startup_sent; eauto.
    + eapply startup_not_established; eauto.
  - rewrite readyRead_eq in Hstep.
    destruct (bytesRead <=? 0).
    { inversion Hstep; subst; clear Hstep.
      split; [reflexivity|]. left. repeat split; auto; try discriminate. not_in_log. }
    cbv zeta in Hstep.
    destruct (isConnectionEncrypted (crypto a)).
    + destruct (decryptDatagram (crypto a) (resize data bytesRead)) as [plainText e1].
      destruct (negb (Nat.eqb (length plainText) 0));
        [|destruct (is_RemoteClosedConnectionError (dtlsError e1))];
        inversion Hstep; subst; clear Hstep; cbn [name ping pingTimer isActive];
        (split; [reflexivity|]); left; repeat split; auto; try discriminate;
        not_in_log.
    + destruct (doHandshake (crypto a) (resize data bytesRead)) as [ok e1].
      destruct ok; cbn [negb] in Hstep.
      2:{ inversion Hstep; subst; clear Hstep; cbn [name ping pingTimer].
          split; [reflexivity|]. left. repeat split; auto; try discriminate. not_in_log. }
      destruct (isConnectionEncrypted e1).
      2:{ inversion Hstep; subst; clear Hstep; cbn [name ping pingTimer].
          split; [reflexivity|]. left. repeat split; auto; try discriminate. not_in_log. }
      rewrite pingTimeout_eq in Hstep. cbn [name socket crypto pingTimer ping interval] in Hstep.
      destruct (writeDatagramEncrypted e1 (ping_datagram (name a) (ping a))) as [w e2].
      destruct (w <=? 0) eqn:Hw; inversion Hstep; subst; clear Hstep;
        cbn [name ping]; (split; [reflexivity|]); right; exists w; rewrite Hw;
        (split; [reflexivity|]); (split; [reflexivity|]); right; cbn; auto.
  - rewrite handshakeTimeout_eq in Hstep.
    destruct (handleTimeout (crypto a)) as [[] e1];
      inversion Hstep; subst; clear Hstep; cbn [name ping pingTimer];
      (split; [reflexivity|]); left; repeat split; auto; try discriminate;
      not_in_log.
  - rewrite pskRequired_eq in Hstep. inversion Hstep; subst; clear Hstep.
    split; [reflexivity|]. left. repeat split; auto; try discriminate. not_in_log.
  - cbn [enabled] in Hen. rewrite pingTimeout_eq in Hstep.
    destruct (writeDatagramEncrypted (crypto a) (ping_datagram (name a) (ping a))) as [w e1].
    destruct (w <=? 0) eqn:Hw; inversion Hstep; subst; clear Hstep;
      cbn [name ping]; (split; [reflexivity|]); right; exists w; rewrite Hw;
      (split; [reflexivity|]); (split; [reflexivity|]); left; auto.
Qed.

End Local.

Section Global.

Context {E : Type} `{QDtls E}.

Lemma exec_cons (ev : Event) (evs : list Event) (a a' : DtlsAssociation E)
    (log : list Effect) :
  exec (ev :: evs) a = Some (a', log) ->
  exists a1 l1 l2,
    enabled a ev = true /\ step ev a = (a1, l1)
    /\ exec evs a1 = Some (a', l2) /\ log = l1 ++ l2.
Proof.
  cbn [exec]. destruct (enabled a ev); [|discriminate].
  destruct (step ev a) as [a1 l1].
  destruct (exec evs a1) as [[a2 l2]|] eqn:Hrest; [|discriminate].
  intros Heq; inversion Heq; subst. exists a1, l1, l2. repeat split.
  exact Hrest.
Qed.

Lemma sent_app (l1 l2 : list Effect) : sent (l1 ++ l2) = sent l1 ++ sent l2.
Proof. unfold sent. apply flat_map_app. Qed.

(** The keepalives of a run in which every write succeeds are numbered
    from the counter's start, modulo the width of [unsigned]. *)
Lemma exec_ping_numbers (evs : list Event) :
  forall (a0 a : DtlsAssociation E) (log : list Effect),
    0 <= ping a0 < uint_modulus ->
    exec evs a0 = Some (a, log) ->
    (forall d w, In (d, w) (sent log) -> 0 < w) ->
    map fst (sent log)
    = map (fun k => ping_datagram (name a0) ((ping a0 + Z.of_nat k) mod uint_modulus))
          (seq 0 (length (sent log)))
    /\ ping a = (ping a0 + Z.of_nat (length (sent log))) mod uint_modulus.
Proof.
  induction evs as [|ev evs IH]; intros a0 a log Hrange Hexec Hok.
  - cbn in Hexec. inversion Hexec; subst. cbn.
    split; [reflexivity|]. rewrite Z.add_0_r, Z.mod_small; auto.
  - apply exec_cons in Hexec.
    destruct Hexec as (a1 & l1 & l2 & Hen & Hstep & Hexec & ->).
    rewrite sent_app in *.
    destruct (step_cases ev a0 a1 l1 Hen Hstep) as [Hname [Hquiet|Hping]].
    + destruct Hquiet as (Hsent & Hp & _). rewrite Hsent in *. cbn [app] in *.
      rewrite <- Hname, <- Hp. apply IH; auto. rewrite Hp; exact Hrange.
    + destruct Hping as (w & Hsent & Hp & _). rewrite Hsent in *. cbn [app] in *.
      assert (Hw : 0 < w) by (eapply Hok; left; reflexivity).
      destruct (w <=? 0) eqn:Hle; [apply Z.leb_le in Hle; lia|].
      assert (Hrange1 : 0 <= ping a1 < uint_modulus).
      { rewrite Hp. apply Z.mod_pos_bound. reflexivity. }
      destruct (IH a1 a l2 Hrange1 Hexec) as [Hnum Hlast].
      { intros d w' Hin. eapply Hok. right. exact Hin. }
      cbn [map fst length seq]. split.
      * f_equal.
        { rewrite Z.add_0_r, Z.mod_small; auto. }
        rewrite Hnum, <- seq_shift, map_map, Hname. apply map_ext. intros k.
        rewrite Hp, Zplus_mod_idemp_l. do 2 f_equal. lia.
      * rewrite Hlast, Hp, Zplus_mod_idemp_l. f_equal. lia.
Qed.

(** C1, as the code has it.  [ping] is an [unsigned]: a successful keepalive
    adds one modulo 2^32 and nothing else ever writes the counter.  So in a
    run in which every write succeeds, started anywhere (a new association
    starts at 0), the k-th keepalive carries the start plus k modulo 2^32,
    the counter ends at the start plus the number of keepalives modulo
    2^32, and as long as that sum does not pass 2^32 the numbers are the
    consecutive integers themselves: no gap, no repetition, no reset. *)
Theorem ping_numbers_modulo (a0 a : DtlsAssociation E) (evs : list Event)
    (log : list Effect) :
  0 <= ping a0 < uint_modulus ->
  exec evs a0 = Some (a, log) ->
  (forall d w, In (d, w) (sent log) -> 0 < w) ->
  map fst (sent log)
  = map (fun k => ping_datagram (name a0) ((ping a0 + Z.of_nat k) mod uint_modulus))
        (seq 0 (length (sent log)))
  /\ ping a = (ping a0 + Z.of_nat (length (sent log))) mod uint_modulus
  /\ (ping a0 + Z.of_nat (length (sent log)) <= uint_modulus ->
      map fst (sent log)
      = map (fun k => ping_datagram (name a0) (ping a0 + Z.of_nat k))
            (seq 0 (length (sent log)))).
Proof.
  intros Hrange Hexec Hok.
  destruct (exec_ping_numbers evs a0 a log Hrange Hexec Hok) as [Hnum Hlast].
  split; [exact Hnum|]. split; [exact Hlast|].
  intros Hfit. rewrite Hnum at 1. apply map_ext_in.
  intros k Hk. apply in_seq in Hk. rewrite Z.mod_small; [reflexivity|lia].
Qed.

Lemma exec_name (evs : list Event) :
  forall (a0 a : DtlsAssociation E) (log : list Effect),
    exec evs a0 = Some (a, log) -> name a = name a0.
Proof.
  induction evs as [|ev evs IH]; intros a0 a log Hexec.
  - cbn in Hexec. inversion Hexec; reflexivity.
  - apply exec_cons in Hexec.
    destruct Hexec as (a1 & l1 & l2 & Hen & Hstep & Hexec & ->).
    rewrite (IH a1 a l2 Hexec).
    exact (proj1 (step_cases ev a0 a1 l1 Hen Hstep)).
Qed.



(** C4, as the code has it.  [handshakeTimeout] always logs the warning
    first and then calls the engine's [handleTimeout]; when the call fails
    it also logs one error message with the engine's reason.  In both cases
    no member but the engine changes: nothing is stopped or closed and no
    failure is recorded. *)
Theorem retransmit_warns_then_reports (a : DtlsAssociation E) :
  step crypto_handshakeTimeout a
  = (mkAssoc (name a) (socket a) (snd (handleTimeout (crypto a))) (pingTimer a) (ping a),
     [warningMessage (msg_retransmit (name a));
      Call_handleTimeout (fst (handleTimeout (crypto a)))]
     ++ (if fst (handleTimeout (crypto a)) then []
         else [errorMessage
                 (msg_retransmit_failed (name a)
                    (dtlsErrorString (snd (handleTimeout (crypto a)))))])).
Proof.
  unfold step. cbn [dispatch]. rewrite handshakeTimeout_eq.
  destruct (handleTimeout (crypto a)) as [ok e1]. reflexivity.
Qed.

(** Once the socket is closed and the timer is off, only [startHandshake],
    the engine's timeout and its key request can still run, and none of
    them reopens the socket, starts the timer or moves the association. *)
Lemma exec_closed (evs : list Event) :
  forall (a a' : DtlsAssociation E) (log : list Effect),
    state (socket a) = UnconnectedState ->
    isActive (pingTimer a) = false ->
    exec evs a = Some (a', log) ->
    state (socket a') = UnconnectedState
    /\ isActive (pingTimer a') = false
    /\ forallb inert log = true.
Proof.
  induction evs as [|ev evs IH]; intros a a' log Hst Hoff Hexec.
  - cbn in Hexec. inversion Hexec; subst. auto.
  - apply exec_cons in Hexec.
    destruct Hexec as (a1 & l1 & l2 & Hen & Hstep & Hexec & ->).
    rewrite forallb_app.
    assert (Hone : state (socket a1) = UnconnectedState
                   /\ isActive (pingTimer a1) = false /\ forallb inert l1 = true).
    { unfold step in Hstep.
      destruct ev as [| |bytesRead data| | |]; cbn [dispatch enabled] in *.
      - rewrite startHandshake_eq, Hst in Hstep. cbn in Hstep.
        inversion Hstep; subst. cbn. auto.
      - rewrite Hst in Hen. discriminate.
      - rewrite Hst in Hen. discriminate.
      - rewrite handshakeTimeout_eq in Hstep.
        destruct (handleTimeout (crypto a)) as [[] e1];
          inversion Hstep; subst; cbn; auto.
      - rewrite pskRequired_eq in Hstep. inversion Hstep; subst. cbn. auto.
      - congruence. }
    destruct Hone as (Hst1 & Hoff1 & Hl1).
    destruct (IH a1 a' l2 Hst1 Hoff1 Hexec) as (Hst2 & Hoff2 & Hl2).
    rewrite Hl1, Hl2. auto.
Qed.

Lemma inert_sent (log : list Effect) : forallb inert log = true -> sent log = [].
Proof.
  induction log as [|eff log IH]; [reflexivity|].
  cbn [forallb]. intros Hall. apply andb_true_iff in Hall. destruct Hall as [Heff Hall].
  destruct eff; try discriminate; cbn; auto.
Qed.

(** C5.  On an encrypted engine, a datagram that decrypts to nothing while
    the engine reports [RemoteClosedConnectionError] logs the decryption,
    exactly one error message, the closing of the socket and the stop of
    the keepalive timer.  The state reached is terminal: in every
    continuation the socket stays unconnected, the timer stays off, and no
    handshake step, decryption, response or keepalive occurs. *)
Theorem remote_close_is_terminal (a : DtlsAssociation E) (bytesRead : qint64)
    (data : QByteArray) (e1 : E) :
  0 < bytesRead ->
  isConnectionEncrypted (crypto a) = true ->
  decryptDatagram (crypto a) (resize data bytesRead) = ([], e1) ->
  dtlsError e1 = RemoteClosedConnectionError ->
  step (socket_readyRead bytesRead data) a
  = (mkAssoc (name a) (mkSocket UnconnectedState (connected_slots (socket a))) e1
             (mkTimer (interval (pingTimer a)) false) (ping a),
     [Call_decryptDatagram (resize data bytesRead) [];
      errorMessage (msg_shutdown_alert (name a));
      Call_socket_close; Call_pingTimer_stop])
  /\ terminal (fst (step (socket_readyRead bytesRead data) a))
  /\ (forall evs a' log,
        exec evs (fst (step (socket_readyRead bytesRead data) a)) = Some (a', log) ->
        state (socket a') = UnconnectedState /\ forallb inert log = true).
Proof.
  intros Hpos Henc Hdec Herr.
  assert (Hstep : step (socket_readyRead bytesRead data) a
    = (mkAssoc (name a) (mkSocket UnconnectedState (connected_slots (socket a))) e1
               (mkTimer (interval (pingTimer a)) false) (ping a),
       [Call_decryptDatagram (resize data bytesRead) [];
        errorMessage (msg_shutdown_alert (name a));
        Call_socket_close; Call_pingTimer_stop])).
  { unfold step. cbn [dispatch]. rewrite readyRead_eq.
    destruct (bytesRead <=? 0) eqn:Hle; [apply Z.leb_le in Hle; lia|].
    cbv zeta. rewrite Henc, Hdec. cbn [length Nat.eqb negb]. rewrite Herr.
    reflexivity. }
  rewrite Hstep. cbn [fst]. split; [reflexivity|]. split.
  - intros evs a' log Hexec.
    apply exec_closed in Hexec; [|reflexivity|reflexivity].
    destruct Hexec as (_ & Hoff & Hinert).
    split; [exact Hoff|]. apply inert_sent, Hinert.
  - intros evs a' log Hexec.
    apply exec_closed in Hexec; [|reflexivity|reflexivity].
    destruct Hexec as (Hst & _ & Hinert). auto.
Qed.

Lemma trace_In (evs : list Event) :
  forall (a0 a : DtlsAssociation E) (ev : Event) (l : list Effect),
    In (a, ev, l) (trace evs a0) -> l = snd (step ev a).
Proof.
  induction evs as [|ev0 evs IH]; intros a0 a ev l Hin; [contradiction|].
  cbn [trace] in Hin. destruct (enabled a0 ev0); [|contradiction].
  destruct (step ev0 a0) as [a1 l1] eqn:Hstep.
  destruct Hin as [Heq|Hin].
  - inversion Heq; subst. rewrite Hstep. reflexivity.
  - eapply IH; eauto.
Qed.

(** What an event logs while the engine is not encrypted: no decryption and
    no response; a datagram that was read goes to [doHandshake] and to
    nothing else. *)
Lemma step_not_encrypted (ev : Event) (a : DtlsAssociation E) :
  isConnectionEncrypted (crypto a) = false ->
  (forall c d p, ~ In (serverResponse c d p) (snd (step ev a)))
  /\ (forall d p, ~ In (Call_decryptDatagram d p) (snd (step ev a)))
  /\ (forall bytesRead data,
        ev = socket_readyRead bytesRead data -> 0 < bytesRead ->
        exists ok rest,
          snd (step ev a) = Call_doHandshake (resize data bytesRead) ok :: rest
          /\ forallb carries_no_datagram rest = true).
Proof.
  intros Hplain. unfold step.
  destruct ev as [| |bytesRead data| | |]; cbn [dispatch].
  - rewrite startHandshake_eq.
    destruct (negb (SocketState_eqb (state (socket a)) ConnectedState)).
    + cbn [snd]. repeat split; try (intros; not_in_log). discriminate.
    + destruct (doHandshake (crypto a) []) as [[] e1]; cbn [snd];
        repeat split; try (intros; not_in_log); discriminate.
  - unfold bind, this, socket_enter_connected, set_socket.
    cbn [name socket crypto pingTimer ping connected_slots].
    match goal with |- context [invoke ?n ?s ?b] =>
      destruct (invoke_udpSocketConnected n b eq_refl) as (e1 & l & Hinv & Hall & _)
    end.
    rewrite Hinv. cbn [snd app]. rewrite Forall_forall in Hall.
    repeat split; try discriminate.
    + intros c d p Hin. specialize (Hall _ Hin). inversion Hall.
    + intros d p Hin. specialize (Hall _ Hin). inversion Hall.
  - rewrite readyRead_eq. rewrite Hplain.
    destruct (bytesRead <=? 0) eqn:Hle.
    { cbn [snd]. repeat split; try (intros; not_in_log).
      intros b d Heq Hpos. inversion Heq; subst. apply Z.leb_le in Hle. lia. }
    cbv zeta.
    destruct (doHandshake (crypto a) (resize data bytesRead)) as [ok e1].
    destruct ok; cbn [negb].
    2:{ cbn [snd]. repeat split; try (intros; not_in_log).
        intros b d Heq _. inversion Heq; subst. eexists; eexists. split; reflexivity. }
    destruct (isConnectionEncrypted e1).
    2:{ cbn [snd]. repeat split; try (intros; not_in_log).
        intros b d Heq _. inversion Heq; subst. eexists; eexists. split; reflexivity. }
    rewrite pingTimeout_eq. cbn [name socket crypto pingTimer ping interval].
    destruct (writeDatagramEncrypted e1 (ping_datagram (name a) (ping a))) as [w e2].
    destruct (w <=? 0); cbn [snd app]; repeat split; try (intros; not_in_log);
      intros b d Heq _; inversion Heq; subst; eexists; eexists; split; reflexivity.
  - rewrite handshakeTimeout_eq.
    destruct (handleTimeout (crypto a)) as [[] e1]; cbn [snd app];
      repeat split; try (intros; not_in_log); discriminate.
  - rewrite pskRequired_eq. cbn [snd].
    repeat split; try (intros; not_in_log); discriminate.
  - rewrite pingTimeout_eq.
    destruct (writeDatagramEncrypted (crypto a) (ping_datagram (name a) (ping a))) as [w e1].
    destruct (w <=? 0); cbn [snd]; repeat split; try (intros; not_in_log); discriminate.
Qed.

(** C9.  In every run of a new association, a step that logs a
    [serverResponse] was taken on an encrypted engine; a step taken on an
    engine that is not encrypted decrypts nothing, and when it read a
    datagram it hands it to [doHandshake] first and to nothing else. *)
Theorem response_only_when_encrypted (n0 : string) (e0 : E) (s0 : SocketState)
    (evs : list Event) (a : DtlsAssociation E) (ev : Event) (l : list Effect) :
  In (a, ev, l) (trace evs (DtlsAssociation_new n0 e0 s0)) ->
  (forall c d p, In (serverResponse c d p) l -> isConnectionEncrypted (crypto a) = true)
  /\ (isConnectionEncrypted (crypto a) = false ->
      (forall d p, ~ In (Call_decryptDatagram d p) l)
      /\ (forall bytesRead data,
            ev = socket_readyRead bytesRead data -> 0 < bytesRead ->
            exists ok rest,
              l = Call_doHandshake (resize data bytesRead) ok :: rest
              /\ forallb carries_no_datagram rest = true)).
Proof.
  intros Hin. apply trace_In in Hin. subst l. split.
  - intros c d p Hresp.
    destruct (isConnectionEncrypted (crypto a)) eqn:Henc; [reflexivity|].
    exfalso. exact (proj1 (step_not_encrypted ev a Henc) c d p Hresp).
  - intros Henc. exact (proj2 (step_not_encrypted ev a Henc)).
Qed.

(** C10.  While the socket is not connected, each call of [startHandshake]
    logs the connecting message and one more connection of [connected()]
    to [udpSocketConnected], and leaves the engine untouched.  After [N]
    such calls the socket has [N] more connections, and one emission of
    [connected()] runs [udpSocketConnected] once per connection, each run
    calling [doHandshake] without a datagram: [N] resumes and [N] start
    attempts for an association that had no connection before. *)
Theorem every_early_start_connects_again (a : DtlsAssociation E) (N : nat) :
  state (socket a) <> ConnectedState ->
  exec (repeat owner_startHandshake N) a
  = Some (mkAssoc (name a)
                  (mkSocket (state (socket a)) (connected_slots (socket a) + N))
                  (crypto a) (pingTimer a) (ping a),
          concat (repeat [infoMessage (msg_connecting (name a)); Call_connect_connected]
                         N))
  /\ count is_resume
       (snd (step socket_connected
               (mkAssoc (name a)
                        (mkSocket (state (socket a)) (connected_slots (socket a) + N))
                        (crypto a) (pingTimer a) (ping a))))
     = (connected_slots (socket a) + N)%nat
  /\ count is_start_attempt
       (snd (step socket_connected
               (mkAssoc (name a)
                        (mkSocket (state (socket a)) (connected_slots (socket a) + N))
                        (crypto a) (pingTimer a) (ping a))))
     = (connected_slots (socket a) + N)%nat.
Proof.
  intros Hst. split.
  - revert a Hst. induction N as [|N IH]; intros a Hst.
    + cbn. rewrite Nat.add_0_r. destruct a as [n [st k] e t p]. reflexivity.
    + cbn [repeat exec enabled]. unfold step. cbn [dispatch].
      rewrite startHandshake_eq.
      assert (Hneq : SocketState_eqb (state (socket a)) ConnectedState = false).
      { destruct (SocketState_eqb (state (socket a)) ConnectedState) eqn:Heq; auto.
        apply SocketState_eqb_eq in Heq. contradiction. }
      rewrite Hneq. cbn [negb].
      rewrite IH by exact Hst.
      cbn [name socket crypto pingTimer ping state connected_slots concat app].
      rewrite Nat.add_succ_r. reflexivity.
  - unfold step. cbn [dispatch].
    unfold bind, this, socket_enter_connected, set_socket.
    cbn [name socket crypto pingTimer ping connected_slots].
    match goal with |- context [invoke ?n ?s ?b] =>
      destruct (invoke_udpSocketConnected n b eq_refl) as (e1 & l & Hinv & _ & Hres & Hatt)
    end.
    rewrite Hinv. cbn [snd app]. auto.
Qed.

End Global.

(** C1, as stated, fails at the largest [unsigned]: the write succeeds, the
    counter goes to 0 instead of 4294967296, and the next keepalive carries
    0 again. *)
Lemma ping_wraps_at_limit :
  exec [pingTimer_timeout; pingTimer_timeout] Examples.at_limit
  = Some (Examples.established_client 1,
          [Call_writeDatagramEncrypted (ping_datagram "client" 4294967295) 1;
           Call_writeDatagramEncrypted (ping_datagram "client" 0) 1])
  /\ ping (fst (step pingTimer_timeout Examples.at_limit))
     <> ping Examples.at_limit + 1.
Proof. split; [vm_compute; reflexivity|vm_compute; discriminate]. Qed.

(** The counter reaches every value: [n] successful ticks take an
    established association from [k] to [k + n] modulo 2^32, so the
    largest [unsigned] is met after 4294967295 keepalives. *)
Lemma every_count_is_reached (n : nat) :
  forall k : Z,
    0 <= k < uint_modulus ->
    exists log,
      exec (repeat pingTimer_timeout n) (Examples.established_client k)
      = Some (Examples.established_client ((k + Z.of_nat n) mod uint_modulus), log).
Proof.
  induction n as [|n IH]; intros k Hk.
  - exists []. cbn [repeat exec]. rewrite Z.add_0_r, Z.mod_small by exact Hk.
    reflexivity.
  - destruct (IH ((k + 1) mod uint_modulus)) as [log Hlog].
    { apply Z.mod_pos_bound. reflexivity. }
    exists (Call_writeDatagramEncrypted (ping_datagram "client" k) 1 :: log).
    cbn [repeat exec enabled Examples.established_client pingTimer isActive].
    unfold step. cbn [dispatch]. rewrite pingTimeout_eq.
    change (Examples.established_client ((k + 1) mod uint_modulus))
      with (mkAssoc "client" (mkSocket ConnectedState 0)
                    (Scripted.mkEngine true NoError []) (mkTimer 5000 true)
                    ((k + 1) mod uint_modulus)) in Hlog.
    cbn. cbn in Hlog. rewrite Hlog. do 3 f_equal.
    rewrite Zplus_mod_idemp_l. f_equal. lia.
Qed.

Lemma ping_numbers_modulo_witness :
  exec Examples.three_ticks (Examples.client [Scripted.completes])
  = Some (Examples.established_client 3, Examples.three_ticks_log)
  /\ map fst (sent Examples.three_ticks_log)
     = [ping_datagram "client" 0; ping_datagram "client" 1; ping_datagram "client" 2]
  /\ ping (Examples.established_client 3) = 3.
Proof.
  assert (Hexec : exec Examples.three_ticks (Examples.client [Scripted.completes])
                  = Some (Examples.established_client 3, Examples.three_ticks_log))
    by (vm_compute; reflexivity).
  split; [exact Hexec|].
  assert (Hrange : 0 <= ping (Examples.client [Scripted.completes]) < uint_modulus)
    by (vm_compute; split; [discriminate|reflexivity]).
  assert (Hok : forall d w, In (d, w) (sent Examples.three_ticks_log) -> 0 < w).
  { intros d w Hin. vm_compute in Hin.
    destruct Hin as [Heq|[Heq|[Heq|[]]]]; inversion Heq; reflexivity. }
  destruct (ping_numbers_modulo _ _ _ _ Hrange Hexec Hok) as (Hnum & Hlast & _).
  split; [exact Hnum|exact Hlast].
Defined.


(** C4, as stated, fails: after a failed [handleTimeout] the association is
    not in a terminal state.  The next datagram is handed to the engine as
    before, and when the engine completes the handshake the keepalive timer
    starts and a keepalive is written. *)
Lemma handshake_completes_after_failed_retransmit :
  exec [owner_startHandshake; crypto_handshakeTimeout]
       (Examples.client Examples.failed_retransmit_script)
  = Some (Examples.after_failed_retransmit,
          [Call_doHandshake [] true; infoMessage (msg_starting "client");
           warningMessage (msg_retransmit "client"); Call_handleTimeout false;
           errorMessage (msg_retransmit_failed "client" "engine failure")])
  /\ exec [socket_readyRead 3 Examples.hello] Examples.after_failed_retransmit
     = Some (Examples.established_client 1,
             [Call_doHandshake Examples.hello true;
              infoMessage (msg_established "client"); Call_pingTimer_start;
              Call_writeDatagramEncrypted (ping_datagram "client" 0) 1])
  /\ ~ terminal Examples.after_failed_retransmit.
Proof.
  split; [vm_compute; reflexivity|]. split; [vm_compute; reflexivity|].
  intros Hterm.
  destruct (Hterm [socket_readyRead 3 Examples.hello] _ _ eq_refl) as [Hoff _].
  vm_compute in Hoff. discriminate Hoff.
Qed.

Lemma remote_close_is_terminal_witness :
  step (socket_readyRead 3 Examples.hello) Examples.closing
  = (mkAssoc "client" (mkSocket UnconnectedState 0)
             (Scripted.mkEngine false RemoteClosedConnectionError [])
             (mkTimer 5000 false) 2,
     [Call_decryptDatagram Examples.hello [];
      errorMessage (msg_shutdown_alert "client");
      Call_socket_close; Call_pingTimer_stop])
  /\ terminal (fst (step (socket_readyRead 3 Examples.hello) Examples.closing))
  /\ (forall evs a' log,
        exec evs (fst (step (socket_readyRead 3 Examples.hello) Examples.closing))
        = Some (a', log) ->
        state (socket a') = UnconnectedState /\ forallb inert log = true).
Proof.
  apply (remote_close_is_terminal Examples.closing 3 Examples.hello
           (Scripted.mkEngine false RemoteClosedConnectionError []));
    reflexivity.
Defined.

Lemma response_for_plaintext_witness :
  step (socket_readyRead 3 Examples.hello) (Examples.established_client 2)
  = (Examples.established_client 2,
     [Call_decryptDatagram Examples.hello Examples.hello;
      serverResponse "client" Examples.hello Examples.hello])
  /\ signals (snd (step (socket_readyRead 3 Examples.hello)
                        (Examples.established_client 2)))
     = [serverResponse "client" Examples.hello Examples.hello].
Proof.
  apply (response_for_plaintext (Examples.established_client 2) 3 Examples.hello
           Examples.hello (Scripted.mkEngine true NoError []));
    try reflexivity; discriminate.
Defined.

Lemma spurious_read_only_warns_witness :
  step (socket_readyRead (-1) []) (Examples.established_client 2)
  = (Examples.established_client 2, [warningMessage (msg_spurious "client")]).
Proof.
  apply (spurious_read_only_warns (Examples.established_client 2) (-1) []).
  discriminate.
Defined.

Lemma response_only_when_encrypted_witness :
  (forall c d p,
      In (serverResponse c d p)
         [Call_doHandshake Examples.hello true; infoMessage (msg_continuing "client")] ->
      Scripted.encrypted (Scripted.fresh [Scripted.progress; Scripted.completes]) = true)
  /\ (Scripted.encrypted (Scripted.fresh [Scripted.progress; Scripted.completes]) = false ->
      (forall d p,
          ~ In (Call_decryptDatagram d p)
               [Call_doHandshake Examples.hello true;
                infoMessage (msg_continuing "client")])
      /\ (forall bytesRead data,
            socket_readyRead 3 Examples.hello = socket_readyRead bytesRead data ->
            0 < bytesRead ->
            exists ok rest,
              [Call_doHandshake Examples.hello true; infoMessage (msg_continuing "client")]
              = Call_doHandshake (resize data bytesRead) ok :: rest
              /\ forallb carries_no_datagram rest = true)).
Proof.
  refine (response_only_when_encrypted
            "client" (Scripted.fresh [Scripted.progress; Scripted.completes])
            ConnectedState
            [socket_readyRead 3 Examples.hello; socket_readyRead 3 Examples.hello]
            (Examples.client [Scripted.progress; Scripted.completes])
            (socket_readyRead 3 Examples.hello)
            [Call_doHandshake Examples.hello true; infoMessage (msg_continuing "client")]
            _).
  vm_compute. left. reflexivity.
Defined.

Lemma every_early_start_connects_again_witness :
  exec (repeat owner_startHandshake 3) (Examples.connecting_client [])
  = Some (mkAssoc "client" (mkSocket ConnectingState 3) (Scripted.fresh [])
                  (mkTimer 5000 false) 0,
          [infoMessage (msg_connecting "client"); Call_connect_connected;
           infoMessage (msg_connecting "client"); Call_connect_connected;
           infoMessage (msg_connecting "client"); Call_connect_connected])
  /\ count is_resume
       (snd (step socket_connected
               (mkAssoc "client" (mkSocket ConnectingState 3) (Scripted.fresh [])
                        (mkTimer 5000 false) 0)))
     = 3%nat
  /\ count is_start_attempt
       (snd (step socket_connected
               (mkAssoc "client" (mkSocket ConnectingState 3) (Scripted.fresh [])
                        (mkTimer 5000 false) 0)))
     = 3%nat.
Proof.
  apply (every_early_start_connects_again (Examples.connecting_client []) 3).
  discriminate.
Defined.

(** * Further properties of the slots and of their runs *)

Section Order.

Lemma neighbours_boundary (x y : Effect) :
  closes x = true -> opens y = true -> neighbours x y = true.
Proof.
  unfold closes, opens, neighbours.
  destruct (failed_call x), (is_socket_close x), (is_timer_start x),
    (is_errorMessage y), (is_socket_close y), (is_timer_stop y), (is_timer_start y);
    cbn; intros; try discriminate; reflexivity.
Qed.

Lemma adjacent_app (l1 l2 : list Effect) :
  adjacent l1 = true -> last_closes l1 = true ->
  first_opens l2 = true -> adjacent l2 = true ->
  adjacent (l1 ++ l2) = true.
Proof.
  intros H1 Hlast Hfirst H2. induction l1 as [|x l1 IH]; [exact H2|].
  cbn [app adjacent] in *. apply andb_true_iff in H1. destruct H1 as [Hxy H1].
  destruct l1 as [|x' l1].
  - cbn [app]. destruct l2 as [|y l2]; [reflexivity|].
    apply andb_true_iff. split; [|exact H2].
    apply neighbours_boundary; assumption.
  - cbn [app] in *. apply andb_true_iff. split; [exact Hxy|].
    apply IH; assumption.
Qed.

Lemma last_closes_app (l1 l2 : list Effect) :
  last_closes l1 = true -> last_closes l2 = true -> last_closes (l1 ++ l2) = true.
Proof.
  intros H1 H2. induction l1 as [|x l1 IH]; [exact H2|].
  cbn [app last_closes] in *. destruct l1 as [|x' l1].
  - cbn [app]. destruct l2; [exact H1|exact H2].
  - cbn [app] in *. apply IH. exact H1.
Qed.

Lemma orderly_app (l1 l2 : list Effect) :
  orderly l1 = true -> orderly l2 = true -> orderly (l1 ++ l2) = true.
Proof.
  unfold orderly. intros H1 H2.
  apply andb_true_iff in H1. destruct H1 as [H1 Hl1].
  apply andb_true_iff in H1. destruct H1 as [Ha1 Hf1].
  apply andb_true_iff in H2. destruct H2 as [H2 Hl2].
  apply andb_true_iff in H2. destruct H2 as [Ha2 Hf2].
  rewrite adjacent_app, last_closes_app by assumption.
  destruct l1; cbn [app first_opens] in *; [rewrite Hf2|rewrite Hf1]; reflexivity.
Qed.

Lemma adjacent_at (l1 l2 : list Effect) (x y : Effect) :
  adjacent (l1 ++ x :: y :: l2) = true -> neighbours x y = true.
Proof.
  induction l1 as [|z l1 IH]; cbn [app adjacent]; intros Hadj;
    apply andb_true_iff in Hadj; destruct Hadj as [Hhead Hrest].
  - exact Hhead.
  - apply IH. exact Hrest.
Qed.

Lemma last_closes_at (l1 : list Effect) (x : Effect) :
  last_closes (l1 ++ [x]) = true -> closes x = true.
Proof.
  induction l1 as [|z l1 IH]; cbn [app last_closes]; [auto|].
  destruct (l1 ++ [x]) eqn:Heq; [destruct l1; discriminate|]. exact IH.
Qed.

End Order.

(** Splits a goal about [step ev a] into the branches of the slots. *)
Ltac split_on_written :=
  match goal with
  | |- context [if ?w <=? 0 then _ else _] => destruct (w <=? 0) eqn:?Hwritten
  end.

Ltac split_on_encrypted :=
  match goal with
  | |- context [if isConnectionEncrypted ?e then _ else _] =>
      destruct (isConnectionEncrypted e) eqn:?Hencrypted
  end.

Ltac use_written :=
  match goal with
  | Hw : (?w <=? 0) = _ |- context [?w <=? 0] => rewrite Hw
  end.

Ltac step_leaves ev a :=
  unfold step;
  destruct ev as [| |?bytesRead ?data| | |]; cbn [dispatch];
  [ rewrite startHandshake_eq;
    destruct (SocketState_eqb (state (socket a)) ConnectedState) eqn:?Hconnected;
    cbn [negb]; [destruct (doHandshake (crypto a) []) as [[] ?e1]|]
  | idtac
  | rewrite readyRead_eq;
    split_on_written;
    [|cbv zeta;
      split_on_encrypted;
      [destruct (decryptDatagram (crypto a) _) as [[|?b ?plainText] ?e1];
       cbn [length Nat.eqb negb];
       [destruct (is_RemoteClosedConnectionError (dtlsError _)) eqn:?Hclosed|]
      |destruct (doHandshake (crypto a) _) as [[] ?e1]; cbn [negb];
       [split_on_encrypted;
        [rewrite pingTimeout_eq; cbn [name socket crypto pingTimer ping interval];
         destruct (writeDatagramEncrypted _ _) as [?w ?e2];
         split_on_written|]|]]]
  | rewrite handshakeTimeout_eq; destruct (handleTimeout (crypto a)) as [[] ?e1]
  | rewrite pskRequired_eq
  | rewrite pingTimeout_eq;
    destruct (writeDatagramEncrypted _ _) as [?w ?e1];
    split_on_written ];
  cbn [fst snd app name socket crypto pingTimer ping state connected_slots
       interval isActive].

Section Further.

Context {E : Type} `{QDtls E}.

(** The resume slot, once more: its log keeps the order. *)
Lemma invoke_udpSocketConnected_orderly (n : nat) :
  forall a : DtlsAssociation E,
    state (socket a) = ConnectedState ->
    exists e1 l,
      invoke n udpSocketConnected a
      = (tt, mkAssoc (name a) (socket a) e1 (pingTimer a) (ping a), l)
      /\ Forall (startup_effect (name a)) l
      /\ orderly l = true.
Proof.
  induction n as [|n IH]; intros a Hst.
  - exists (crypto a), []. destruct a; cbn. repeat split; constructor.
  - cbn [invoke]. unfold bind at 1.
    rewrite (udpSocketConnected_eq a Hst).
    destruct (doHandshake (crypto a) []) as [ok e1].
    destruct (IH (mkAssoc (name a) (socket a) e1 (pingTimer a) (ping a)) Hst)
      as (e2 & l & Hinv & Hall & Hord).
    rewrite Hinv. cbn [name socket pingTimer ping] in *.
    exists e2. eexists. split; [reflexivity|]. split.
    + repeat constructor; [|exact Hall]. destruct ok; constructor.
    + match goal with |- orderly (?l1 ++ l) = true =>
        apply (orderly_app l1 l); [|exact Hord] end.
      destruct ok; reflexivity.
Qed.

Lemma step_orderly (ev : Event) (a : DtlsAssociation E) :
  orderly (snd (step ev a)) = true.
Proof.
  step_leaves ev a; try reflexivity.
  1:{ unfold bind, this, socket_enter_connected, set_socket.
      cbn [name socket crypto pingTimer ping connected_slots].
      match goal with |- context [invoke ?n ?s ?b] =>
        destruct (invoke_udpSocketConnected_orderly n b eq_refl)
          as (e1 & l & Hinv & _ & Hord)
      end.
      rewrite Hinv. exact Hord. }
  all: unfold orderly; cbn -[Z.leb]; unfold neighbours, closes, failed_call;
    use_written; reflexivity.
Qed.

Lemma exec_orderly (evs : list Event) :
  forall (a0 a : DtlsAssociation E) (log : list Effect),
    exec evs a0 = Some (a, log) -> orderly log = true.
Proof.
  induction evs as [|ev evs IH]; intros a0 a log Hexec.
  - cbn in Hexec. inversion Hexec. reflexivity.
  - apply exec_cons in Hexec.
    destruct Hexec as (a1 & l1 & l2 & _ & Hstep & Hexec & ->).
    apply orderly_app; [|eapply IH; eauto].
    pose proof (step_orderly ev a0) as Hord. rewrite Hstep in Hord. exact Hord.
Qed.

(** What comes right after, respectively right before, a place in an
    orderly log. *)
Lemma orderly_next (log l1 l2 : list Effect) (x : Effect) :
  orderly log = true -> log = l1 ++ x :: l2 -> closes x = false ->
  exists y l3, l2 = y :: l3 /\ neighbours x y = true.
Proof.
  unfold orderly. intros Hord -> Hx.
  apply andb_true_iff in Hord. destruct Hord as [Hord Hlast].
  apply andb_true_iff in Hord. destruct Hord as [Hadj _].
  destruct l2 as [|y l3].
  - apply last_closes_at in Hlast. congruence.
  - exists y, l3. split; [reflexivity|]. eapply adjacent_at; eauto.
Qed.

Lemma orderly_previous (log l1 l2 : list Effect) (y : Effect) :
  orderly log = true -> log = l1 ++ y :: l2 -> opens y = false ->
  exists l0 x, l1 = l0 ++ [x] /\ neighbours x y = true.
Proof.
  unfold orderly. intros Hord -> Hy.
  apply andb_true_iff in Hord. destruct Hord as [Hord _].
  apply andb_true_iff in Hord. destruct Hord as [Hadj Hfirst].
  destruct (exists_last (l := l1)) as (l0 & x & ->).
  - intros ->. cbn in Hfirst. congruence.
  - exists l0, x. split; [reflexivity|].
    rewrite <- app_assoc in Hadj. cbn [app] in Hadj. eapply adjacent_at; eauto.
Qed.

Lemma startup_count (p : Effect -> bool) (n : string) (l : list Effect) :
  (forall eff, startup_effect n eff -> p eff = false) ->
  Forall (startup_effect n) l -> count p l = 0%nat.
Proof.
  intros Hp. unfold count. induction 1 as [|eff l Heff _ IH]; [reflexivity|].
  cbn [filter]. rewrite (Hp eff Heff). exact IH.
Qed.

Ltac in_log_cases :=
  let Hin := fresh "Hin" in
  intros ? Hin; cbn [In] in Hin;
  repeat (destruct Hin as [Hin|Hin];
          [try discriminate Hin; inversion Hin; subst; reflexivity|]);
  contradiction.

(** What one enabled event keeps and what it adds. *)
Lemma step_frame (ev : Event) (a : DtlsAssociation E) :
  enabled a ev = true ->
  interval (pingTimer (fst (step ev a))) = interval (pingTimer a)
  /\ connected_slots (socket (fst (step ev a)))
     = (connected_slots (socket a) + count is_connect (snd (step ev a)))%nat
  /\ (count is_connect (snd (step ev a)) <= if is_owner_start ev then 1 else 0)%nat
  /\ (timer_needs_socket a -> timer_needs_socket (fst (step ev a)))
  /\ length (sent (snd (step ev a)))
     = ((if is_tick ev then 1 else 0) + count is_established (snd (step ev a)))%nat
  /\ count is_shutdown (snd (step ev a)) = 0%nat
  /\ (forall i, In (Call_setIdentity i) (snd (step ev a)) ->
              i = toLatin1 (Lit (name a)))
  /\ (forall k, In (Call_setPreSharedKey k) (snd (step ev a)) -> k = preSharedKey)
  /\ count is_setIdentity (snd (step ev a))
     = (if is_key_request ev then 1 else 0)%nat.
Proof.
  unfold timer_needs_socket. intros Hen. revert Hen.
  step_leaves ev a; cbn [enabled is_owner_start is_tick is_key_request]; intros Hen.
  all: lazymatch goal with
    | |- context [invoke _ _] =>
        unfold bind, this, socket_enter_connected, set_socket;
        cbn [name socket crypto pingTimer ping connected_slots];
        match goal with |- context [invoke ?n ?s ?b] =>
          destruct (invoke_udpSocketConnected_orderly n b eq_refl)
            as (e1 & l & Hinv & Hall & _)
        end;
        rewrite Hinv; cbn [fst snd app name socket pingTimer state connected_slots];
        rewrite (startup_sent _ _ Hall);
        rewrite (startup_count is_connect _ _ ltac:(intros ? []; reflexivity) Hall);
        rewrite (startup_count is_established _ _ ltac:(intros ? []; reflexivity) Hall);
        rewrite (startup_count is_shutdown _ _ ltac:(intros ? []; reflexivity) Hall);
        rewrite (startup_count is_setIdentity _ _ ltac:(intros ? []; reflexivity) Hall);
        rewrite Forall_forall in Hall;
        repeat split; auto; try lia;
        let Hin := fresh "Hin" in
        intros ? Hin; specialize (Hall _ Hin); inversion Hall
    | |- _ => idtac
    end.
  all: repeat split; cbn -[In]; auto; try lia; try discriminate;
    try in_log_cases.
  intros _ _. apply SocketState_eqb_eq. exact Hen.
Qed.

Lemma count_app (p : Effect -> bool) (l1 l2 : list Effect) :
  count p (l1 ++ l2) = (count p l1 + count p l2)%nat.
Proof. unfold count. rewrite filter_app, length_app. reflexivity. Qed.

Lemma count_none (p : Effect -> bool) (l : list Effect) (eff : Effect) :
  count p l = 0%nat -> In eff l -> p eff = false.
Proof.
  unfold count. intros Hnone Hin.
  destruct (p eff) eqn:Hp; [|reflexivity].
  assert (Hf : In eff (filter p l)) by (apply filter_In; auto).
  destruct (filter p l); [contradiction|discriminate].
Qed.

(** The same along a run. *)
Lemma exec_frame (evs : list Event) :
  forall (a0 a : DtlsAssociation E) (log : list Effect),
    exec evs a0 = Some (a, log) ->
    interval (pingTimer a) = interval (pingTimer a0)
    /\ connected_slots (socket a)
       = (connected_slots (socket a0) + count is_connect log)%nat
    /\ (count is_connect log <= length (filter is_owner_start evs))%nat
    /\ (timer_needs_socket a0 -> timer_needs_socket a)
    /\ length (sent log)
       = (length (filter is_tick evs) + count is_established log)%nat
    /\ count is_shutdown log = 0%nat
    /\ (forall i, In (Call_setIdentity i) log -> i = toLatin1 (Lit (name a0)))
    /\ (forall k, In (Call_setPreSharedKey k) log -> k = preSharedKey)
    /\ count is_setIdentity log = length (filter is_key_request evs).
Proof.
  induction evs as [|ev evs IH]; intros a0 a log Hexec.
  - cbn in Hexec. inversion Hexec; subst. cbn.
    repeat split; auto; intros ? [].
  - apply exec_cons in Hexec.
    destruct Hexec as (a1 & l1 & l2 & Hen & Hstep & Hexec & ->).
    destruct (step_frame ev a0 Hen)
      as (Hi & Hs & Hc & Ht & Hw & Hd & Hid & Hkey & Hn).
    rewrite Hstep in *. cbn [fst snd] in *.
    destruct (IH a1 a l2 Hexec)
      as (Hi' & Hs' & Hc' & Ht' & Hw' & Hd' & Hid' & Hkey' & Hn').
    pose proof (proj1 (step_cases ev a0 a1 l1 Hen Hstep)) as Hname.
    rewrite sent_app, length_app, !count_app. cbn [filter].
    repeat split.
    + congruence.
    + lia.
    + destruct (is_owner_start ev); cbn [length]; lia.
    + auto.
    + destruct (is_tick ev); cbn [length]; lia.
    + lia.
    + intros i Hin. apply in_app_or in Hin. destruct Hin as [Hin|Hin]; auto.
      rewrite <- Hname. auto.
    + intros k Hin. apply in_app_or in Hin. destruct Hin as [Hin|Hin]; auto.
    + destruct (is_key_request ev); cbn [length]; lia.
Qed.

Ltac split_neighbours Hn :=
  unfold neighbours in Hn;
  repeat (let Hc := fresh "Hc" in apply andb_true_iff in Hn; destruct Hn as [Hn Hc]).

(** X1.  In every run, an engine call that failed (a handshake step or a
    timeout handling that returned false, a write that returned zero or
    less) is followed at once by an error message. *)
Theorem every_failure_is_reported (a0 a : DtlsAssociation E) (evs : list Event)
    (log l1 l2 : list Effect) (eff : Effect) :
  exec evs a0 = Some (a, log) ->
  log = l1 ++ eff :: l2 ->
  failed_call eff = true ->
  exists m l3, l2 = errorMessage m :: l3.
Proof.
  intros Hexec Hlog Hfailed.
  destruct (orderly_next log l1 l2 eff (exec_orderly evs a0 a log Hexec) Hlog)
    as (y & l3 & -> & Hn).
  { unfold closes. rewrite Hfailed. reflexivity. }
  split_neighbours Hn. rewrite Hfailed in Hn.
  destruct y; try discriminate. eauto.
Qed.

(** X2.  In every run, an error message has its cause right before it: the
    shutdown-alert message an empty decryption, every other error message
    a failed engine call. *)
Theorem every_error_has_a_cause (a0 a : DtlsAssociation E) (evs : list Event)
    (log l1 l2 : list Effect) (m : Text) :
  exec evs a0 = Some (a, log) ->
  log = l1 ++ errorMessage m :: l2 ->
  exists l0 x,
    l1 = l0 ++ [x]
    /\ (if is_shutdown_alert (errorMessage m) then empty_decryption x
        else failed_call x) = true.
Proof.
  intros Hexec Hlog.
  destruct (orderly_previous log l1 l2 (errorMessage m)
              (exec_orderly evs a0 a log Hexec) Hlog eq_refl)
    as (l0 & x & -> & Hn).
  exists l0, x. split; [reflexivity|].
  split_neighbours Hn. cbn [is_errorMessage] in *. assumption.
Qed.

(** X3.  In every run, the socket is closed only right after the
    shutdown-alert message, and the keepalive timer is stopped right after
    the closing. *)
Theorem socket_closed_on_alert_only (a0 a : DtlsAssociation E) (evs : list Event)
    (log l1 l2 : list Effect) :
  exec evs a0 = Some (a, log) ->
  log = l1 ++ Call_socket_close :: l2 ->
  (exists l0 x, l1 = l0 ++ [x] /\ is_shutdown_alert x = true)
  /\ (exists l3, l2 = Call_pingTimer_stop :: l3).
Proof.
  intros Hexec Hlog.
  pose proof (exec_orderly evs a0 a log Hexec) as Hord. split.
  - destruct (orderly_previous log l1 l2 _ Hord Hlog eq_refl) as (l0 & x & -> & Hn).
    exists l0, x. split; [reflexivity|].
    split_neighbours Hn. cbn [is_socket_close] in *. assumption.
  - destruct (orderly_next log l1 l2 _ Hord Hlog eq_refl) as (y & l3 & -> & Hn).
    split_neighbours Hn. cbn [is_socket_close] in *.
    destruct y; try discriminate. eauto.
Qed.

(** X4.  In every run, the keepalive timer is stopped only right after the
    failed-ping message or right after the closing of the socket. *)
Theorem timer_stopped_for_a_reason (a0 a : DtlsAssociation E) (evs : list Event)
    (log l1 l2 : list Effect) :
  exec evs a0 = Some (a, log) ->
  log = l1 ++ Call_pingTimer_stop :: l2 ->
  exists l0 x,
    l1 = l0 ++ [x] /\ (is_ping_failed x = true \/ x = Call_socket_close).
Proof.
  intros Hexec Hlog.
  destruct (orderly_previous log l1 l2 _ (exec_orderly evs a0 a log Hexec) Hlog eq_refl)
    as (l0 & x & -> & Hn).
  exists l0, x. split; [reflexivity|].
  split_neighbours Hn. cbn [is_timer_stop] in *.
  match goal with Hor : is_ping_failed x || is_socket_close x = true |- _ =>
    apply orb_true_iff in Hor; destruct Hor as [Hp|Hc']
  end; [left; exact Hp|right; destruct x; try discriminate; reflexivity].
Qed.

(** X5.  In every run, the keepalive timer is started only right after the
    message that the connection is established, and a keepalive is written
    right after the start. *)
Theorem timer_started_on_completion_only (a0 a : DtlsAssociation E)
    (evs : list Event) (log l1 l2 : list Effect) :
  exec evs a0 = Some (a, log) ->
  log = l1 ++ Call_pingTimer_start :: l2 ->
  (exists l0 x, l1 = l0 ++ [x] /\ is_established x = true)
  /\ (exists d w l3, l2 = Call_writeDatagramEncrypted d w :: l3).
Proof.
  intros Hexec Hlog.
  pose proof (exec_orderly evs a0 a log Hexec) as Hord. split.
  - destruct (orderly_previous log l1 l2 _ Hord Hlog eq_refl) as (l0 & x & -> & Hn).
    exists l0, x. split; [reflexivity|].
    split_neighbours Hn. cbn [is_timer_start] in *. assumption.
  - destruct (orderly_next log l1 l2 _ Hord Hlog eq_refl) as (y & l3 & -> & Hn).
    split_neighbours Hn. cbn [is_timer_start] in *.
    destruct y; try discriminate. eauto.
Qed.

(** X6.  Every keepalive carries the number of the keepalives that
    succeeded before it, counted from the start of the run modulo 2^32,
    whatever else happened in between: a write that fails uses up no
    number, the next keepalive carries the same one.  The counter ends at
    the start plus the number of successful writes. *)
Theorem keepalive_numbers_count_successes (a0 a : DtlsAssociation E)
    (evs : list Event) (log : list Effect) :
  0 <= ping a0 < uint_modulus ->
  exec evs a0 = Some (a, log) ->
  ping a = (ping a0 + Z.of_nat (successes (sent log))) mod uint_modulus
  /\ (forall ws1 d w ws2,
        sent log = ws1 ++ (d, w) :: ws2 ->
        d = ping_datagram (name a0)
              ((ping a0 + Z.of_nat (successes ws1)) mod uint_modulus)).
Proof.
  revert a0 a log. induction evs as [|ev evs IH]; intros a0 a log Hrange Hexec.
  - cbn in Hexec. inversion Hexec; subst. cbn. split.
    + rewrite Z.add_0_r, Z.mod_small; auto.
    + intros ws1 d w ws2 Hsplit. destruct ws1; discriminate.
  - apply exec_cons in Hexec.
    destruct Hexec as (a1 & l1 & l2 & Hen & Hstep & Hexec & ->).
    rewrite sent_app.
    destruct (step_cases ev a0 a1 l1 Hen Hstep) as [Hname [Hquiet|Hping]].
    + destruct Hquiet as (Hsent & Hp & _). rewrite Hsent. cbn [app].
      rewrite <- Hname, <- Hp. apply IH; [rewrite Hp; exact Hrange|exact Hexec].
    + destruct Hping as (w0 & Hsent & Hp & _). rewrite Hsent. cbn [app].
      assert (Hrange1 : 0 <= ping a1 < uint_modulus).
      { rewrite Hp. destruct (w0 <=? 0); [exact Hrange|].
        apply Z.mod_pos_bound. reflexivity. }
      destruct (IH a1 a l2 Hrange1 Hexec) as [Hlast Hnum].
      assert (Hadd : forall k : nat,
                 (ping a1 + Z.of_nat k) mod uint_modulus
                 = (ping a0
                    + Z.of_nat ((if 0 <? w0 then 1 else 0) + k)) mod uint_modulus).
      { intros k. rewrite Hp, (Z.leb_antisym 0 w0).
        destruct (0 <? w0); cbn [negb].
        - rewrite Zplus_mod_idemp_l. f_equal. lia.
        - f_equal. }
      split.
      * rewrite Hlast. unfold successes. cbn [filter snd].
        destruct (0 <? w0); cbn [length]; apply (Hadd _).
      * intros ws1 d w ws2 Hsplit. destruct ws1 as [|[d1 w1] ws1].
        { cbn in Hsplit. inversion Hsplit; subst. cbn.
          rewrite Z.add_0_r, Z.mod_small; auto. }
        cbn [app] in Hsplit. injection Hsplit as _ Hw1 Hrest. subst w1.
        rewrite (Hnum ws1 d w ws2 Hrest), Hname.
        unfold successes. cbn [filter snd]. f_equal.
        destruct (0 <? w0) eqn:Hw0; cbn [length].
        -- apply (Hadd _).
        -- apply (Hadd _).
Qed.

(** X7.  The keepalive timer runs on a connected socket only: if that holds
    at the start of a run (a new association's timer is off), it holds at
    its end.  The timer is started while a datagram of the connected socket
    is handled, and closing the socket stops it. *)
Theorem keepalive_timer_needs_socket (a0 a : DtlsAssociation E)
    (evs : list Event) (log : list Effect) :
  timer_needs_socket a0 ->
  exec evs a0 = Some (a, log) ->
  timer_needs_socket a.
Proof.
  intros Hstart Hexec.
  destruct (exec_frame evs a0 a log Hexec) as (_ & _ & _ & Hkeep & _). auto.
Qed.

(** X8.  A run writes one keepalive per timer tick and one per handshake
    completion, and no other. *)
Theorem one_keepalive_per_tick_or_completion (a0 a : DtlsAssociation E)
    (evs : list Event) (log : list Effect) :
  exec evs a0 = Some (a, log) ->
  length (sent log) = (length (filter is_tick evs) + count is_established log)%nat.
Proof.
  intros Hexec.
  destruct (exec_frame evs a0 a log Hexec) as (_ & _ & _ & _ & Hw & _). exact Hw.
Qed.

(** X9.  The connections of [connected()] only grow: a run adds as many as
    it logs calls of [connect], and those come from calls of
    [startHandshake] by the owner, at most one each; the resume slot and
    the other slots add none. *)
Theorem connections_only_grow (a0 a : DtlsAssociation E) (evs : list Event)
    (log : list Effect) :
  exec evs a0 = Some (a, log) ->
  connected_slots (socket a)
  = (connected_slots (socket a0) + count is_connect log)%nat
  /\ (count is_connect log <= length (filter is_owner_start evs))%nat.
Proof.
  intros Hexec.
  destruct (exec_frame evs a0 a log Hexec) as (_ & Hs & Hc & _). auto.
Qed.

(** X10.  No slot calls the engine's [shutdown]: while the object lives no
    run logs it, only the destructor does. *)
Theorem no_shutdown_before_delete (a0 a : DtlsAssociation E) (evs : list Event)
    (log : list Effect) :
  exec evs a0 = Some (a, log) ->
  ~ In Call_shutdown log.
Proof.
  intros Hexec Hin.
  destruct (exec_frame evs a0 a log Hexec) as (_ & _ & _ & _ & _ & Hd & _).
  pose proof (count_none is_shutdown log Call_shutdown Hd Hin). discriminate.
Qed.

Lemma step_keys (ev : Event) (a : DtlsAssociation E) :
  count is_setPreSharedKey (snd (step ev a))
  = (if is_key_request ev then 1 else 0)%nat.
Proof.
  step_leaves ev a; cbn [is_key_request]; try reflexivity.
  unfold bind, this, socket_enter_connected, set_socket.
  cbn [name socket crypto pingTimer ping connected_slots].
  match goal with |- context [invoke ?n ?s ?b] =>
    destruct (invoke_udpSocketConnected_orderly n b eq_refl)
      as (e1 & l & Hinv & Hall & _)
  end.
  rewrite Hinv. cbn [snd app].
  exact (startup_count is_setPreSharedKey _ _ ltac:(intros ? []; reflexivity) Hall).
Qed.

Lemma exec_keys (evs : list Event) :
  forall (a0 a : DtlsAssociation E) (log : list Effect),
    exec evs a0 = Some (a, log) ->
    count is_setPreSharedKey log = length (filter is_key_request evs).
Proof.
  induction evs as [|ev evs IH]; intros a0 a log Hexec.
  - cbn in Hexec. inversion Hexec. reflexivity.
  - apply exec_cons in Hexec.
    destruct Hexec as (a1 & l1 & l2 & _ & Hstep & Hexec & ->).
    pose proof (step_keys ev a0) as Hone. rewrite Hstep in Hone. cbn [snd] in Hone.
    rewrite count_app, Hone, (IH a1 a l2 Hexec). cbn [filter].
    destruct (is_key_request ev); reflexivity.
Qed.

(** X11.  Every key request of a run is answered the same way: the identity
    is the association's name, the key the fixed six bytes, and both the
    identity and the key are set once per request and at no other time. *)
Theorem credentials_never_vary (a0 a : DtlsAssociation E) (evs : list Event)
    (log : list Effect) :
  exec evs a0 = Some (a, log) ->
  (forall i, In (Call_setIdentity i) log -> i = toLatin1 (Lit (name a0)))
  /\ (forall k, In (Call_setPreSharedKey k) log ->
                k = [Byte.x1a; Byte.x2b; Byte.x3c; Byte.x4d; Byte.x5e; Byte.x6f])
  /\ count is_setIdentity log = length (filter is_key_request evs)
  /\ count is_setPreSharedKey log = length (filter is_key_request evs).
Proof.
  intros Hexec.
  destruct (exec_frame evs a0 a log Hexec) as (_ & _ & _ & _ & _ & _ & Hi & Hk & Hn).
  repeat split; auto. exact (exec_keys evs a0 a log Hexec).
Qed.

(** X12.  No event changes the association's name or the period of the
    keepalive timer: after any run of a new association the period is
    still 5000 ms. *)
Theorem name_and_period_are_kept (n0 : string) (e0 : E) (s0 : SocketState)
    (a : DtlsAssociation E) (evs : list Event) (log : list Effect) :
  exec evs (DtlsAssociation_new n0 e0 s0) = Some (a, log) ->
  name a = n0 /\ interval (pingTimer a) = 5000.
Proof.
  intros Hexec. split.
  - exact (exec_name evs _ a log Hexec).
  - destruct (exec_frame evs _ a log Hexec) as (Hi & _). exact Hi.
Qed.

Lemma resize_length (b : QByteArray) (n : Z) : length (resize b n) = Z.to_nat n.
Proof.
  unfold resize. rewrite length_app, length_firstn, repeat_length. lia.
Qed.

(** X13.  On an encrypted engine [readyRead] takes no handshake step,
    starts no timer and writes no keepalive, whatever the decryption
    gives; the counter stays as it is. *)
Theorem encrypted_read_never_handshakes (a : DtlsAssociation E) (bytesRead : qint64)
    (data : QByteArray) :
  isConnectionEncrypted (crypto a) = true ->
  forallb (fun eff => negb (is_doHandshake eff) && negb (is_write eff)
                      && negb (is_timer_start eff))
          (snd (step (socket_readyRead bytesRead data) a)) = true
  /\ ping (fst (step (socket_readyRead bytesRead data) a)) = ping a.
Proof.
  intros Henc. unfold step. cbn [dispatch]. rewrite readyRead_eq, Henc.
  destruct (bytesRead <=? 0); [split; reflexivity|]. cbv zeta.
  destruct (decryptDatagram (crypto a) (resize data bytesRead)) as [[|b p] e1];
    cbn [length Nat.eqb negb]; [|split; reflexivity].
  destruct (is_RemoteClosedConnectionError (dtlsError e1)); split; reflexivity.
Qed.

(** X14.  No read notification goes unreported: every call of [readyRead]
    emits at least one signal of its own, on every path through it. *)
Theorem read_is_always_reported (a : DtlsAssociation E) (bytesRead : qint64)
    (data : QByteArray) :
  (1 <= length (signals (snd (step (socket_readyRead bytesRead data) a))))%nat.
Proof.
  pose (ev := socket_readyRead bytesRead data).
  change (1 <= length (signals (snd (step ev a))))%nat.
  assert (Hev : ev = socket_readyRead bytesRead data) by reflexivity.
  clearbody ev. revert Hev.
  step_leaves ev a; try discriminate; intros _; cbn; lia.
Qed.

(** X15.  The datagram that [readyRead] hands to the engine, and passes on
    in a response, is the buffer cut to the length that was read: it has
    exactly [bytesRead] bytes and so is never empty. *)
Theorem engine_gets_what_was_read (a : DtlsAssociation E) (bytesRead : qint64)
    (data d : QByteArray) (eff : Effect) :
  In eff (snd (step (socket_readyRead bytesRead data) a)) ->
  datagram_of eff = Some d ->
  d = resize data bytesRead /\ length d = Z.to_nat bytesRead /\ 0 < bytesRead.
Proof.
  intros Hin Hd.
  assert (Hgoal : d = resize data bytesRead /\ 0 < bytesRead).
  { revert Hin. pose (ev := socket_readyRead bytesRead data).
    change (In eff (snd (step ev a)) -> d = resize data bytesRead /\ 0 < bytesRead).
    assert (Hev : ev = socket_readyRead bytesRead data) by reflexivity.
    clearbody ev. revert Hev.
    step_leaves ev a; try discriminate; intros Hev; inversion Hev; subst;
      cbn [In]; intros Hin;
      repeat (destruct Hin as [Hin|Hin];
              [subst eff; cbn in Hd;
               first [discriminate Hd
                     |inversion Hd; subst;
                      split; [reflexivity|apply Z.leb_gt; assumption]]|]);
      contradiction. }
  destruct Hgoal as [-> Hpos]. repeat split; auto. apply resize_length.
Qed.

(** X16.  [startHandshake] has no guard of its own: on a connected socket
    every call hands the engine a new start (a [doHandshake] without a
    datagram), whatever the engine's state; [N] calls give [N] starts.
    They add no connection and leave socket, timer and counter alone. *)
Theorem every_start_reaches_the_engine (a : DtlsAssociation E) (N : nat) :
  state (socket a) = ConnectedState ->
  exists a' log,
    exec (repeat owner_startHandshake N) a = Some (a', log)
    /\ count is_start_attempt log = N
    /\ count is_connect log = 0%nat
    /\ socket a' = socket a /\ pingTimer a' = pingTimer a /\ ping a' = ping a.
Proof.
  revert a. induction N as [|N IH]; intros a Hst.
  - exists a, []. repeat split.
  - cbn [repeat exec enabled]. unfold step. cbn [dispatch].
    rewrite startHandshake_eq, Hst. cbn [SocketState_eqb negb].
    destruct (doHandshake (crypto a) []) as [ok e1].
    destruct (IH (mkAssoc (name a) (socket a) e1 (pingTimer a) (ping a)) Hst)
      as (a' & log & Hexec & Hn & Hc & Hs & Ht & Hp).
    rewrite Hexec. cbn [socket pingTimer ping] in *.
    eexists; eexists. split; [reflexivity|].
    rewrite !count_app, Hn, Hc. destruct ok; repeat split; auto.
Qed.

(** What an enabled event other than [connected()] does on a socket that
    is not connected. *)
Lemma step_waiting (ev : Event) (a : DtlsAssociation E) :
  state (socket a) <> ConnectedState ->
  enabled a ev = true ->
  is_socket_connected ev = false ->
  state (socket (fst (step ev a))) = state (socket a)
  /\ forallb carries_no_datagram (snd (step ev a)) = true.
Proof.
  intros Hst Hen Hev. revert Hen Hev.
  step_leaves ev a; cbn [enabled is_socket_connected]; intros Hen Hev;
    try discriminate; try (split; reflexivity);
    try (apply SocketState_eqb_eq in Hen; contradiction).
  all: apply SocketState_eqb_eq in Hconnected; contradiction.
Qed.

(** X17.  While the socket is not connected and [connected()] has not been
    emitted, nothing reaches the engine's handshake: a run takes no
    handshake step, decrypts nothing and emits no response, however often
    [startHandshake] is called, and the socket's state stays as it was. *)
Theorem nothing_starts_before_connected (a0 a : DtlsAssociation E)
    (evs : list Event) (log : list Effect) :
  state (socket a0) <> ConnectedState ->
  forallb (fun ev => negb (is_socket_connected ev)) evs = true ->
  exec evs a0 = Some (a, log) ->
  forallb carries_no_datagram log = true
  /\ state (socket a) = state (socket a0).
Proof.
  revert a0 a log. induction evs as [|ev evs IH]; intros a0 a log Hst Hnone Hexec.
  - cbn in Hexec. inversion Hexec; subst. split; reflexivity.
  - apply exec_cons in Hexec.
    destruct Hexec as (a1 & l1 & l2 & Hen & Hstep & Hexec & ->).
    cbn [forallb] in Hnone. apply andb_true_iff in Hnone. destruct Hnone as [Hev Hnone].
    apply negb_true_iff in Hev.
    destruct (step_waiting ev a0 Hst Hen Hev) as [Hsame Hquiet].
    rewrite Hstep in *. cbn [fst snd] in *.
    destruct (IH a1 a l2) as [Hquiet' Hsame']; auto; [congruence|].
    rewrite forallb_app, Hquiet, Hquiet'. split; [reflexivity|congruence].
Qed.

Lemma step_responses (ev : Event) (a : DtlsAssociation E) :
  count is_serverResponse (snd (step ev a))
  = count plain_decryption (snd (step ev a)).
Proof.
  step_leaves ev a; try reflexivity.
  unfold bind, this, socket_enter_connected, set_socket.
  cbn [name socket crypto pingTimer ping connected_slots].
  match goal with |- context [invoke ?n ?s ?b] =>
    destruct (invoke_udpSocketConnected_orderly n b eq_refl)
      as (e1 & l & Hinv & Hall & _)
  end.
  rewrite Hinv. cbn [snd app].
  rewrite (startup_count is_serverResponse _ _ ltac:(intros ? []; reflexivity) Hall).
  rewrite (startup_count plain_decryption _ _ ltac:(intros ? []; reflexivity) Hall).
  reflexivity.
Qed.

(** X18.  A run emits as many responses as it has decryptions with a
    non-empty plaintext: none is dropped, none is made up by another
    slot. *)
Theorem responses_match_decryptions (a0 a : DtlsAssociation E) (evs : list Event)
    (log : list Effect) :
  exec evs a0 = Some (a, log) ->
  count is_serverResponse log = count plain_decryption log.
Proof.
  revert a0 a log. induction evs as [|ev evs IH]; intros a0 a log Hexec.
  - cbn in Hexec. inversion Hexec. reflexivity.
  - apply exec_cons in Hexec.
    destruct Hexec as (a1 & l1 & l2 & _ & Hstep & Hexec & ->).
    pose proof (step_responses ev a0) as Hone. rewrite Hstep in Hone.
    rewrite !count_app, (IH a1 a l2 Hexec). cbn [snd] in Hone. lia.
Qed.

End Further.

Section Keepalive.

Context {E : Type} `{QDtls E}.





End Keepalive.

(** The scenarios run as written. *)
Lemma scenario_runs :
  exec Scenario.events Scenario.start = Some (Scenario.finish, Scenario.log).
Proof. vm_compute. reflexivity. Qed.

Lemma waiting_scenario_runs :
  exec Scenario.waiting_events (Examples.connecting_client [])
  = Some (Scenario.waiting_finish, Scenario.waiting_log).
Proof. vm_compute. reflexivity. Qed.

Lemma every_failure_is_reported_witness :
  exists m l3, skipn 7 Scenario.log = errorMessage m :: l3.
Proof.
  apply (every_failure_is_reported Scenario.start Scenario.finish Scenario.events
           Scenario.log (firstn 6 Scenario.log) (skipn 7 Scenario.log)
           (Call_handleTimeout false) scenario_runs);
    reflexivity.
Defined.

Lemma every_error_has_a_cause_witness :
  exists l0 x,
    firstn 23 Scenario.log = l0 ++ [x]
    /\ (if is_shutdown_alert (errorMessage (msg_shutdown_alert "client"))
        then empty_decryption x else failed_call x) = true.
Proof.
  apply (every_error_has_a_cause Scenario.start Scenario.finish Scenario.events
           Scenario.log (firstn 23 Scenario.log) (skipn 24 Scenario.log)
           (msg_shutdown_alert "client") scenario_runs).
  reflexivity.
Defined.

Lemma socket_closed_on_alert_only_witness :
  (exists l0 x, firstn 24 Scenario.log = l0 ++ [x] /\ is_shutdown_alert x = true)
  /\ (exists l3, skipn 25 Scenario.log = Call_pingTimer_stop :: l3).
Proof.
  apply (socket_closed_on_alert_only Scenario.start Scenario.finish Scenario.events
           Scenario.log (firstn 24 Scenario.log) (skipn 25 Scenario.log)
           scenario_runs).
  reflexivity.
Defined.

Lemma timer_stopped_for_a_reason_witness :
  exists l0 x,
    firstn 17 Scenario.log = l0 ++ [x]
    /\ (is_ping_failed x = true \/ x = Call_socket_close).
Proof.
  apply (timer_stopped_for_a_reason Scenario.start Scenario.finish Scenario.events
           Scenario.log (firstn 17 Scenario.log) (skipn 18 Scenario.log)
           scenario_runs).
  reflexivity.
Defined.

Lemma timer_started_on_completion_only_witness :
  (exists l0 x, firstn 13 Scenario.log = l0 ++ [x] /\ is_established x = true)
  /\ (exists d w l3, skipn 14 Scenario.log = Call_writeDatagramEncrypted d w :: l3).
Proof.
  apply (timer_started_on_completion_only Scenario.start Scenario.finish
           Scenario.events Scenario.log (firstn 13 Scenario.log)
           (skipn 14 Scenario.log) scenario_runs).
  reflexivity.
Defined.

Lemma keepalive_numbers_count_successes_witness :
  ping Scenario.finish = 1
  /\ (forall ws1 d w ws2,
        sent Scenario.log = ws1 ++ (d, w) :: ws2 ->
        d = ping_datagram "client"
              ((0 + Z.of_nat (successes ws1)) mod uint_modulus)).
Proof.
  refine (keepalive_numbers_count_successes Scenario.start Scenario.finish
            Scenario.events Scenario.log _ scenario_runs).
  vm_compute. split; [discriminate|reflexivity].
Defined.

Lemma keepalive_timer_needs_socket_witness : timer_needs_socket Scenario.finish.
Proof.
  refine (keepalive_timer_needs_socket Scenario.start Scenario.finish Scenario.events
            Scenario.log _ scenario_runs).
  intros Hon. discriminate Hon.
Defined.

Lemma one_keepalive_per_tick_or_completion_witness :
  length (sent Scenario.log)
  = (length (filter is_tick Scenario.events)
     + count is_established Scenario.log)%nat.
Proof.
  exact (one_keepalive_per_tick_or_completion Scenario.start Scenario.finish
           Scenario.events Scenario.log scenario_runs).
Defined.

Lemma connections_only_grow_witness :
  connected_slots (socket Scenario.finish)
  = (connected_slots (socket Scenario.start) + count is_connect Scenario.log)%nat
  /\ (count is_connect Scenario.log
      <= length (filter is_owner_start Scenario.events))%nat.
Proof.
  exact (connections_only_grow Scenario.start Scenario.finish Scenario.events
           Scenario.log scenario_runs).
Defined.

Lemma no_shutdown_before_delete_witness : ~ In Call_shutdown Scenario.log.
Proof.
  exact (no_shutdown_before_delete Scenario.start Scenario.finish Scenario.events
           Scenario.log scenario_runs).
Defined.

Lemma credentials_never_vary_witness :
  (forall i, In (Call_setIdentity i) Scenario.log -> i = toLatin1 (Lit "client"))
  /\ (forall k, In (Call_setPreSharedKey k) Scenario.log ->
                k = [Byte.x1a; Byte.x2b; Byte.x3c; Byte.x4d; Byte.x5e; Byte.x6f])
  /\ count is_setIdentity Scenario.log
     = length (filter is_key_request Scenario.events)
  /\ count is_setPreSharedKey Scenario.log
     = length (filter is_key_request Scenario.events).
Proof.
  exact (credentials_never_vary Scenario.start Scenario.finish Scenario.events
           Scenario.log scenario_runs).
Defined.

Lemma name_and_period_are_kept_witness :
  name Scenario.finish = "client"%string
  /\ interval (pingTimer Scenario.finish) = 5000.
Proof.
  exact (name_and_period_are_kept "client" (Scripted.fresh Scenario.script)
           ConnectingState Scenario.finish Scenario.events Scenario.log
           scenario_runs).
Defined.

Lemma encrypted_read_never_handshakes_witness :
  forallb (fun eff => negb (is_doHandshake eff) && negb (is_write eff)
                      && negb (is_timer_start eff))
          (snd (step (socket_readyRead 3 Examples.hello)
                     (Examples.established_client 2))) = true
  /\ ping (fst (step (socket_readyRead 3 Examples.hello)
                     (Examples.established_client 2))) = 2.
Proof.
  apply (encrypted_read_never_handshakes (Examples.established_client 2) 3
           Examples.hello).
  reflexivity.
Defined.

Lemma engine_gets_what_was_read_witness :
  Examples.hello = resize Examples.hello 3
  /\ length Examples.hello = Z.to_nat 3 /\ 0 < 3.
Proof.
  apply (engine_gets_what_was_read (Examples.established_client 2) 3 Examples.hello
           Examples.hello (Call_decryptDatagram Examples.hello Examples.hello)).
  - vm_compute. left. reflexivity.
  - reflexivity.
Defined.

Lemma every_start_reaches_the_engine_witness :
  exists a' log,
    exec (repeat owner_startHandshake 2) (Examples.client []) = Some (a', log)
    /\ count is_start_attempt log = 2%nat
    /\ count is_connect log = 0%nat
    /\ socket a' = socket (Examples.client [])
    /\ pingTimer a' = pingTimer (Examples.client [])
    /\ ping a' = ping (Examples.client []).
Proof.
  apply (every_start_reaches_the_engine (Examples.client []) 2). reflexivity.
Defined.

Lemma nothing_starts_before_connected_witness :
  forallb carries_no_datagram Scenario.waiting_log = true
  /\ state (socket Scenario.waiting_finish) = ConnectingState.
Proof.
  refine (nothing_starts_before_connected (Examples.connecting_client [])
            Scenario.waiting_finish Scenario.waiting_events Scenario.waiting_log
            _ _ waiting_scenario_runs).
  - discriminate.
  - reflexivity.
Defined.

Lemma responses_match_decryptions_witness :
  count is_serverResponse Scenario.log = count plain_decryption Scenario.log.
Proof.
  exact (responses_match_decryptions Scenario.start Scenario.finish Scenario.events
           Scenario.log scenario_runs).
Defined.

